(** * Schaap-To-SHETRAN-1Layer: a shallow embedding and its properties

    The script reads five Mualem-van Genuchten parameter grids, groups
    the cells into supercategories by their ThetaS value and writes a
    category map, a soil-property table and a soil-detail table.

    Grid values are IEEE binary64 numbers ([float]); NumPy, pandas and
    Python compare them with the IEEE equality, which [PrimFloat.eqb]
    computes.  A frame born from a 2-D array (the parameter grids,
    [DfSubCats], [DfSuperCats]) is its list of rows; a frame built column
    by column (the two tables) is a [DataFrame] record. *)

From Stdlib Require Import ZArith List Sorted Bool Lia Ascii String Floats.
From stdpp Require Import base gmap strings.

Set Warnings "-inexact-float".
Open Scope Z_scope.

(** * Part I: the model *)

(** ** Floating-point values *)

Module PyFloat.

(** Python's [x == y] on two floats. *)
Definition py_eq (x y : float) : bool := (x =? y)%float.

(** Equality of the pandas hash table behind [Series.unique]: IEEE
    equality, and all NaNs are one value. *)
Definition pd_eq (x y : float) : bool :=
  py_eq x y || (is_nan x && is_nan y).

(** What IEEE equality looks at: zeros are one value whatever their sign,
    a NaN is no value at all. *)
Inductive fkey : Type :=
  | KZero
  | KInf (s : bool)
  | KFin (s : bool) (m : positive) (e : Z).

Definition sf_key (f : spec_float) : option fkey :=
  match f with
  | S754_zero _ => Some KZero
  | S754_infinity s => Some (KInf s)
  | S754_nan => None
  | S754_finite s m e => Some (KFin s m e)
  end.

Definition key (x : float) : option fkey := sf_key (Prim2SF x).

(** A grid as an ASCII raster holds it: numbers only. *)
Definition no_nan (l : list float) : Prop :=
  forall x, In x l -> is_nan x = false.

End PyFloat.

Import PyFloat.

(** ** [Series.unique] over any value type

    [Series.unique] scans the values once and keeps a value when the hash
    table has not seen an equal one yet; the result lists the kept values
    in the order of the scan. *)

Section UniqueDefs.
Context {A : Type} (eqb : A -> A -> bool).

(** [seen x table]: the table holds a value equal to [x]. *)
Definition seen (x : A) (table : list A) : bool :=
  existsb (fun y => eqb y x) table.

Definition unique_step (table : list A) (x : A) : list A :=
  if seen x table then table else table ++ [x].

Definition unique_from (table : list A) (l : list A) : list A :=
  fold_left unique_step l table.

Definition unique (l : list A) : list A := unique_from [] l.

(** Position of the first value equal to [x]. *)
Fixpoint index_of (x : A) (table : list A) : option nat :=
  match table with
  | [] => None
  | y :: table' =>
      if eqb y x then Some 0%nat else option_map S (index_of x table')
  end.

(** No two values of the list are equal. *)
Fixpoint distinctb (table : list A) : bool :=
  match table with
  | [] => true
  | y :: table' => negb (seen y table') && distinctb table'
  end.

(** Cell [i] holds a value that no earlier cell holds. *)
Definition first_seen (l : list A) (i : nat) : bool :=
  match nth_error l i with
  | Some x => negb (seen x (firstn i l))
  | None => false
  end.

(** Number of distinct values among the first [i] cells, and in all. *)
Definition distinct_before (l : list A) (i : nat) : nat :=
  length (List.filter (first_seen l) (seq 0 i)).

Definition distinct_count (l : list A) : nat :=
  distinct_before l (length l).

End UniqueDefs.

(** ** The Python dict

    Insertion order is kept; storing under a key that is already there
    replaces the value; a lookup compares the stored keys with [==]. *)

Section DictDefs.
Context {K V : Type} (keq : K -> K -> bool).

Fixpoint dict_set (d : list (K * V)) (k : K) (v : V) : list (K * V) :=
  match d with
  | [] => [(k, v)]
  | (k', v') :: d' =>
      if keq k' k then (k', v) :: d' else (k', v') :: dict_set d' k v
  end.

(** [Series.to_dict]: the (index, value) pairs stored one after another. *)
Definition to_dict (items : list (K * V)) : list (K * V) :=
  fold_left (fun d kv => dict_set d (fst kv) (snd kv)) items [].

(** [dict.get(k)]: [None] when no stored key equals [k]. *)
Fixpoint dict_get (d : list (K * V)) (k : K) : option V :=
  match d with
  | [] => None
  | (k', v') :: d' => if keq k' k then Some v' else dict_get d' k
  end.

End DictDefs.

(** ** Exceptions, output files and the script monad *)

(** A Python exception, by the name of its class. *)
Definition exception : Type := string.

Definition IndexError : exception := "IndexError".
Definition NameError : exception := "NameError".
Definition ValueError : exception := "ValueError".
Definition OSError : exception := "OSError".
Definition MemoryError : exception := "MemoryError".

Inductive result (A : Type) : Type :=
  | Ok (a : A)
  | Raise (e : exception).
Arguments Ok {A} a.
Arguments Raise {A} e.

(** A value in a frame or in a written file; [CNaN] is a missing value. *)
Inductive cell : Type :=
  | CStr (s : string)
  | CInt (z : Z)
  | CFloat (x : float)
  | CNaN.

(** What [to_csv] writes: the separator, the header line when asked for,
    and the data rows. *)
Record csv_file : Type := {
  sep : string;
  header : option (list string);
  rows : list (list cell)
}.

(** The files of the output directory, by path. *)
Abbreviation filesystem := (gmap string csv_file).

(** A statement of the script runs on the output directory and either
    hands a value on or raises. *)
Definition M (A : Type) : Type := filesystem -> filesystem * result A.

Definition ret {A} (a : A) : M A := fun fs => (fs, Ok a).

Definition bind {A B} (m : M A) (k : A -> M B) : M B :=
  fun fs =>
    match m fs with
    | (fs', Ok a) => k a fs'
    | (fs', Raise e) => (fs', Raise e)
    end.

Definition lift {A} (r : result A) : M A := fun fs => (fs, r).

Notation "'do' x <- m ; k" := (bind m (fun x => k))
  (at level 10, x name, m at level 100, k at level 200).
Notation "'do' ' p <- m ; k" := (bind m (fun x => match x with p => k end))
  (at level 10, p pattern, m at level 100, k at level 200).

(** How a [to_csv] on a path ends: the file is written; or it cannot be
    opened for writing (a missing or unwritable directory or file) and
    the directory stays as it was; or it is opened, which empties it, and
    the write breaks off after some lines (a full disk).  The two
    failures raise OSError. *)
Inductive write_end : Type :=
  | Written
  | Refused
  | BrokenOff (lines : nat).

(** The first lines of a file, the header line being the first when the
    file has one. *)
Definition cut (lines : nat) (f : csv_file) : csv_file :=
  match header f, lines with
  | Some h, O => {| sep := sep f; header := None; rows := [] |}
  | Some h, S n =>
      {| sep := sep f; header := Some h; rows := firstn n (rows f) |}
  | None, n => {| sep := sep f; header := None; rows := firstn n (rows f) |}
  end.

(** [df.to_csv(path_or_buf = path, ...)]; [writes] tells, path by path,
    how a write there ends. *)
Definition write_file (writes : string -> write_end) (path : string)
    (f : csv_file) : M unit :=
  fun fs =>
    match writes path with
    | Written => (<[path := f]> fs, Ok tt)
    | Refused => (fs, Raise OSError)
    | BrokenOff lines => (<[path := cut lines f]> fs, Raise OSError)
    end.

(** [l[i]] on a Python list. *)
Definition getitem {A} (l : list A) (i : nat) : result A :=
  match nth_error l i with
  | Some a => Ok a
  | None => Raise IndexError
  end.

(** ** Column-built frames *)

(** A frame with the default [RangeIndex(index)] and its named columns in
    the order of their creation. *)
Record DataFrame : Type := {
  index : nat;
  columns : list (string * list cell)
}.

(** [pd.DataFrame()] *)
Definition empty_frame : DataFrame := {| index := 0; columns := [] |}.

(** A column aligned on [RangeIndex(n)]: labels it lacks become missing. *)
Definition reindex (n : nat) (col : list cell) : list cell :=
  firstn n col ++ repeat CNaN (n - length col).

(** pandas' [_ensure_valid_index]: a frame whose index is still empty
    takes the index of the first non-empty list-like stored in it. *)
Definition ensure_valid_index (df : DataFrame) (value_len : nat) : DataFrame :=
  if ((index df =? 0)%nat && (0 <? value_len)%nat)%bool
  then {| index := value_len;
          columns := map (fun nc => (fst nc, reindex value_len (snd nc)))
                         (columns df) |}
  else df.

Fixpoint set_column (cols : list (string * list cell)) (name : string)
    (col : list cell) : list (string * list cell) :=
  match cols with
  | [] => [(name, col)]
  | (name', col') :: cols' =>
      if String.eqb name' name then (name', col) :: cols'
      else (name', col') :: set_column cols' name col
  end.

(** [df[name] = s] for a Series [s] on a default index: aligned by label. *)
Definition setitem_series (df : DataFrame) (name : string)
    (values : list cell) : DataFrame :=
  let df' := ensure_valid_index df (length values) in
  {| index := index df';
     columns := set_column (columns df') name (reindex (index df') values) |}.

(** [df[name] = a] for a NumPy array [a]: the lengths must agree. *)
Definition setitem_array (df : DataFrame) (name : string)
    (values : list cell) : result DataFrame :=
  let df' := ensure_valid_index df (length values) in
  if (length values =? index df')%nat
  then Ok {| index := index df';
             columns := set_column (columns df') name values |}
  else Raise ValueError.

(** [df[name] = c] for a scalar [c]: one copy per row. *)
Definition setitem_scalar (df : DataFrame) (name : string) (c : cell)
    : DataFrame :=
  {| index := index df;
     columns := set_column (columns df) name (repeat c (index df)) |}.

(** Row [i] of a frame, in column order. *)
Definition frame_row (df : DataFrame) (i : nat) : list cell :=
  map (fun nc => nth i (snd nc) CNaN) (columns df).

(** [df.to_csv(index = False, header = True, sep = s)] *)
Definition frame_to_csv (df : DataFrame) (s : string) : csv_file :=
  {| sep := s;
     header := Some (map fst (columns df));
     rows := map (frame_row df) (seq 0 (index df)) |}.

(** A header or data line as text, given the text of each field. *)
Definition csv_line (s : string) (fields : list string) : string :=
  String.concat s fields.

(** The column called [name] of a written table. *)
Definition csv_column (f : csv_file) (name : string) : option (list cell) :=
  match header f with
  | None => None
  | Some names =>
      match index_of String.eqb name names with
      | Some j => Some (map (fun row => nth j row CNaN) (rows f))
      | None => None
      end
  end.

(** ** The metadata reader (lines 67-88) *)

Module Metadata.

Definition is_digit (c : ascii) : bool :=
  let n := nat_of_ascii c in ((48 <=? n)%nat && (n <=? 57)%nat)%bool.

Definition minus_sign : ascii := "-"%char.
Definition dot : ascii := "."%char.

Fixpoint is_prefix (p s : list ascii) : bool :=
  match p, s with
  | [], _ => true
  | _ :: _, [] => false
  | a :: p', b :: s' => Ascii.eqb a b && is_prefix p' s'
  end.

(** [s.find(p) != -1] *)
Fixpoint contains (p s : list ascii) : bool :=
  is_prefix p s ||
  match s with
  | [] => false
  | _ :: s' => contains p s'
  end.

(** Where a left-to-right scan for ['-?\d+\.?\d*'] stands: between
    matches, after a minus sign that still needs its digit, inside the
    digits before the dot, or past the dot.  The match under way is held
    last character first. *)
Inductive scan : Type :=
  | Idle
  | Sign
  | IntPart (buf : list ascii)
  | FracPart (buf : list ascii).

(** Every piece of the pattern is greedy and the pieces after [\d+] also
    match nothing, so a match ends at the first character that cannot
    extend it, and the scan resumes on that character. *)
Definition restart (c : ascii) : scan :=
  if is_digit c then IntPart [c]
  else if Ascii.eqb c minus_sign then Sign
  else Idle.

Fixpoint findall_from (st : scan) (s : list ascii) : list (list ascii) :=
  match s with
  | [] =>
      match st with
      | IntPart buf | FracPart buf => [rev buf]
      | Idle | Sign => []
      end
  | c :: s' =>
      match st with
      | Idle => findall_from (restart c) s'
      | Sign =>
          if is_digit c then findall_from (IntPart [c; minus_sign]) s'
          else findall_from (restart c) s'
      | IntPart buf =>
          if is_digit c then findall_from (IntPart (c :: buf)) s'
          else if Ascii.eqb c dot then findall_from (FracPart (c :: buf)) s'
          else rev buf :: findall_from (restart c) s'
      | FracPart buf =>
          if is_digit c then findall_from (FracPart (c :: buf)) s'
          else rev buf :: findall_from (restart c) s'
      end
  end.

(** [re.findall('-?\d+\.?\d*', line)] *)
Definition findall (line : string) : list string :=
  map string_of_list_ascii (findall_from Idle (list_ascii_of_string line)).

Definition digit_value (c : ascii) : Z := Z.of_nat (nat_of_ascii c) - 48.

Definition digits_value (ds : list ascii) : Z :=
  fold_left (fun acc c => 10 * acc + digit_value c) ds 0.

(** [int(Num)] on a match of the pattern: a match with a dot in it is not
    an integer literal. *)
Definition py_int (Num : string) : result Z :=
  match list_ascii_of_string Num with
  | [] => Raise ValueError
  | c :: ds =>
      if Ascii.eqb c minus_sign
      then if (negb (length ds =? 0)%nat && forallb is_digit ds)%bool
           then Ok (- digits_value ds) else Raise ValueError
      else if forallb is_digit (c :: ds)
           then Ok (digits_value (c :: ds)) else Raise ValueError
  end.

Fixpoint map_result {A B} (f : A -> result B) (l : list A) : result (list B) :=
  match l with
  | [] => Ok []
  | a :: l' =>
      match f a with
      | Raise e => Raise e
      | Ok b =>
          match map_result f l' with
          | Raise e => Raise e
          | Ok bs => Ok (b :: bs)
          end
      end
  end.

(** [[int(Num) for Num in re.findall(..., line)][0]] *)
Definition first_int (line : string) : result Z :=
  match map_result py_int (findall line) with
  | Raise e => Raise e
  | Ok nums => getitem nums 0
  end.

Definition NColsString : string := "ncols".
Definition NRowsString : string := "nrows".

Definition line_contains (needle line : string) : bool :=
  contains (list_ascii_of_string needle) (list_ascii_of_string line).

(** The loop over the lines; [Ncols] and [Nrows] are unbound until a line
    sets them. *)
Fixpoint scan_lines (Lines : list string) (Ncols Nrows : option Z)
    : result (option Z * option Z) :=
  match Lines with
  | [] => Ok (Ncols, Nrows)
  | line :: Lines' =>
      if line_contains NColsString line then
        match first_int line with
        | Raise e => Raise e
        | Ok n => scan_lines Lines' (Some n) Nrows
        end
      else if line_contains NRowsString line then
        match first_int line with
        | Raise e => Raise e
        | Ok n => scan_lines Lines' Ncols (Some n)
        end
      else scan_lines Lines' Ncols Nrows
  end.

(** The largest array index and byte count of NumPy on a 64-bit machine. *)
Definition npy_max_intp : Z := 2 ^ 63 - 1.

(** The bytes of a float64 array of this shape as NumPy counts them: 8
    for an element, and a dimension of 0 is left out of the product. *)
Definition nbytes (r c : Z) : Z :=
  8 * (if r =? 0 then 1 else r) * (if c =? 0 then 1 else c).

(** [np.zeros([Nrows,Ncols])] reads [Nrows], then [Ncols]; it raises
    ValueError on a negative dimension, on a dimension beyond the largest
    index and on a byte count beyond it, and MemoryError when the machine
    cannot hold the array ([allocates] tells, shape by shape). *)
Definition np_zeros_shape (allocates : nat -> nat -> bool)
    (Nrows Ncols : option Z) : result (nat * nat) :=
  match Nrows, Ncols with
  | None, _ => Raise NameError
  | Some _, None => Raise NameError
  | Some r, Some c =>
      if ((r <? 0) || (c <? 0) || (npy_max_intp <? r) || (npy_max_intp <? c)
          || (npy_max_intp <? nbytes r c))%bool
      then Raise ValueError
      else if allocates (Z.to_nat r) (Z.to_nat c)
           then Ok (Z.to_nat r, Z.to_nat c)
           else Raise MemoryError
  end.

End Metadata.

(** ** The script *)

Module Script.

(** *** User-defined variables (lines 42-48) *)

Definition DirectoryOut : string := "C:/Users/DH/Downloads/".
Definition SuperCatsOut : string := "SoilCats_3Layer".
Definition SoilPropertiesOut : string := "SoilProperties_3Layer".
Definition SoilDetailsOut : string := "SoilDetails_3Layer".

Definition SuperCatsPath : string := DirectoryOut +:+ SuperCatsOut +:+ ".txt".
Definition SoilPropertiesPath : string :=
  DirectoryOut +:+ SoilPropertiesOut +:+ ".txt".
Definition SoilDetailsPath : string :=
  DirectoryOut +:+ SoilDetailsOut +:+ ".txt".

(** *** The subgrid of soil categories (lines 94-103) *)

(** An integer stored in a float64 cell: kept when it fits in 53 bits,
    else rounded to the nearest multiple of the spacing, ties to even. *)
Definition float64_of_int (z : Z) : Z :=
  let a := Z.abs z in
  let drop := Z.log2 a + 1 - 53 in
  if drop <=? 0 then z
  else
    let q := Z.shiftr a drop in
    let r := Z.land a (Z.ones drop) in
    let half := Z.shiftl 1 (drop - 1) in
    let q' := if (half <? r) || ((r =? half) && Z.odd q) then q + 1 else q in
    Z.sgn z * Z.shiftl q' drop.

(** [astype(int)] on an integer-valued cell: a 64-bit integer. *)
Definition astype_int (z : Z) : Z :=
  (z + 2 ^ 63) mod 2 ^ 64 - 2 ^ 63.

(** The number written at [(Row, Col)]. *)
Definition SubCats (Ncols : nat) (Row Col : nat) : Z :=
  1 + Z.of_nat Ncols * Z.of_nat Row + Z.of_nat Col.

(** The two loops fill a float64 frame of [Nrows] by [Ncols] zeros, which
    is then converted to integers. *)
Definition DfSubCats (Nrows Ncols : nat) : list (list Z) :=
  map (fun Row =>
         map (fun Col => astype_int (float64_of_int (SubCats Ncols Row Col)))
             (seq 0 Ncols))
      (seq 0 Nrows).

(** *** Reading the parameters (lines 116-122) *)

(** [Df.values.flatten()]: the rows one after another. *)
Definition flatten {A} (Df : list (list A)) : list A := concat Df.

Definition NoData : float := (-999)%float.

(** [lambda x: x if x == -999 else x * 0.01] *)
Definition cm_to_m (x : float) : float :=
  if py_eq x NoData then x else (x * 0.01)%float.

(** [VG_Ksat.apply(...)] on the flattened grid (line 120). *)
Definition VG_Ksat (DfVG_Ksat : list (list float)) : list float :=
  map cm_to_m (flatten DfVG_Ksat).

(** *** The supergrid (lines 128-143) *)

(** The frame of line 128-129 as its rows: a unique value and its index. *)
Definition VG_ThetaS_unique (VG_ThetaS : list float) : list (float * Z) :=
  let ParamValue := unique pd_eq VG_ThetaS in
  combine ParamValue (map Z.of_nat (seq 0 (length ParamValue))).

Definition VG_ThetaS_unique_dict (VG_ThetaS : list float) : list (float * Z) :=
  to_dict py_eq (VG_ThetaS_unique VG_ThetaS).

(** The list filled by the loop of lines 135-137; [None] is what
    [dict.get] hands back for a value that is no key. *)
Definition SuperCats (VG_ThetaS : list float) : list (option Z) :=
  map (dict_get py_eq (VG_ThetaS_unique_dict VG_ThetaS)) VG_ThetaS.

Fixpoint chunks {A} (n width : nat) (l : list A) : list (list A) :=
  match n with
  | O => []
  | S n' => firstn width l :: chunks n' width (skipn width l)
  end.

(** [values.reshape(Nrows,Ncols)] *)
Definition reshape {A} (l : list A) (Nrows Ncols : nat)
    : result (list (list A)) :=
  if (length l =? Nrows * Ncols)%nat then Ok (chunks Nrows Ncols l)
  else Raise ValueError.

(** An entry without ID. *)
Definition missing (id : option Z) : bool :=
  match id with
  | Some _ => false
  | None => true
  end.

(** [pd.Series(SuperCats)] (line 139) is an int64 series when every entry
    is an ID; as soon as an entry is [None] it holds floats, the missing
    entries as NaN. *)
Definition as_float64 (ids : list (option Z)) : bool := existsb missing ids.

(** An ID as a float64 value. *)
Definition float_of_id (z : Z) : float := PrimFloat.of_uint63 (Uint63.of_Z z).

(** An entry of the series, as the series holds it. *)
Definition id_cell (float64 : bool) (id : option Z) : cell :=
  match id with
  | Some z => if float64 then CFloat (float_of_id z) else CInt z
  | None => CNaN
  end.

(** [DfSuperCats.to_csv(index = False, header = False, sep = ' ')]; the
    frame holds all the entries of the series again, in its dtype. *)
Definition map_to_csv (DfSuperCats : list (list (option Z))) : csv_file :=
  {| sep := " "; header := None;
     rows := map (map (id_cell (as_float64 (concat DfSuperCats))))
                 DfSuperCats |}.

(** *** The tables (lines 156-202) *)

(** Equality of two entries of [SuperCats] for [Series.unique]. *)
Definition id_eq (a b : option Z) : bool := bool_decide (a = b).

(** [pd.Series(SuperCats.unique())] (line 156) *)
Definition SuperCats_unique (VG_ThetaS : list float) : list (option Z) :=
  unique id_eq (SuperCats VG_ThetaS).

(** The same series as the cells of a column: the unique entries in the
    dtype of the series they are taken from. *)
Definition SuperCats_cells (VG_ThetaS : list float) : list cell :=
  map (id_cell (as_float64 (SuperCats VG_ThetaS))) (SuperCats_unique VG_ThetaS).

(** [pd.Series(Df.values.flatten()).unique()] (lines 158-162) *)
Definition VG_Super (Df : list (list float)) : list cell :=
  map CFloat (unique pd_eq (flatten Df)).

Definition bind_result {A B} (r : result A) (k : A -> result B) : result B :=
  match r with
  | Ok a => k a
  | Raise e => Raise e
  end.

(** Lines 166-175. *)
Definition DfSoilSuperProperties
    (DfVG_ThetaS DfVG_ThetaR DfVG_Ksat DfVG_Alpha DfVG_N : list (list float))
    : result DataFrame :=
  let SuperCats := SuperCats_cells (flatten DfVG_ThetaS) in
  let df := empty_frame in
  let df := setitem_series df "SoilProperty"
              (repeat (CStr "<SoilProperty>") (length SuperCats)) in
  let df := setitem_series df "SuperCats" SuperCats in
  let df := setitem_series df "SoilType" SuperCats in
  bind_result (setitem_array df "VG_ThetaS" (VG_Super DfVG_ThetaS)) (fun df =>
  bind_result (setitem_array df "VG_ThetaR" (VG_Super DfVG_ThetaR)) (fun df =>
  bind_result (setitem_array df "VG_Ksat" (VG_Super DfVG_Ksat)) (fun df =>
  bind_result (setitem_array df "VG_alpha" (VG_Super DfVG_Alpha)) (fun df =>
  bind_result (setitem_array df "VG_n" (VG_Super DfVG_N)) (fun df =>
  Ok (setitem_scalar df "</SoilProperty>" (CStr "</SoilProperty>"))))))).

(** Lines 188-194. *)
Definition DfSuperDetails (DfVG_ThetaS : list (list float)) : DataFrame :=
  let SuperCats := SuperCats_cells (flatten DfVG_ThetaS) in
  let df := empty_frame in
  let df := setitem_series df "<SoilDetails>"
              (repeat (CStr "<SoilDetail>") (length SuperCats)) in
  let df := setitem_series df "SuperCats" SuperCats in
  let df := setitem_scalar df "SoilLayer" (CInt 1) in
  let df := setitem_series df "SoilType" SuperCats in
  let df := setitem_scalar df "Depth[m]" (CFloat 2.0) in
  setitem_series df "</SoilDetails>"
    (repeat (CStr "</SoilDetail>") (length SuperCats)).

(** Lines 116-202: from the five grids to the three files.  The converted
    [VG_Ksat] of line 120 is computed and not read again. *)
Definition emit (writes : string -> write_end) (Nrows Ncols : nat)
    (DfVG_ThetaS DfVG_ThetaR DfVG_Ksat DfVG_Alpha DfVG_N : list (list float))
    : M unit :=
  let VG_ThetaS := flatten DfVG_ThetaS in
  let _VG_Ksat := VG_Ksat DfVG_Ksat in
  do DfSuperCats <- lift (reshape (SuperCats VG_ThetaS) Nrows Ncols);
  do _ <- write_file writes SuperCatsPath (map_to_csv DfSuperCats);
  do properties <- lift (DfSoilSuperProperties DfVG_ThetaS DfVG_ThetaR
                           DfVG_Ksat DfVG_Alpha DfVG_N);
  do _ <- write_file writes SoilPropertiesPath (frame_to_csv properties ",");
  write_file writes SoilDetailsPath
    (frame_to_csv (DfSuperDetails DfVG_ThetaS) ",").

(** *** The whole script

    [CustomFunctionsToSHETRAN.ASCtoDfParam] is not part of the sources and
    is a parameter here, as are the files found by [glob.glob] and their
    lines, the shapes the machine can hold and how a write at each path
    ends. *)
Section Run.
Variable readlines : string -> list string.
Variable ASCtoDfParam : string -> Z -> Z -> result (list (list float)).
Variable allocates : nat -> nat -> bool.
Variable writes : string -> write_end.

Definition load (PathList : list string) (i : nat) (Nrows Ncols : nat)
    : result (list (list float)) :=
  bind_result (getitem PathList i) (fun path =>
  ASCtoDfParam path (Z.of_nat Nrows) (Z.of_nat Ncols)).

Definition run (PathList : list string) : M unit :=
  do path <- lift (getitem PathList 0);
  let Lines := readlines path in
  do found <- lift (Metadata.scan_lines Lines None None);
  do shape <- lift (Metadata.np_zeros_shape allocates (snd found) (fst found));
  let Nrows := fst shape in
  let Ncols := snd shape in
  let _DfSubCats := DfSubCats Nrows Ncols in
  do DfVG_ThetaS <- lift (load PathList 0 Nrows Ncols);
  do DfVG_ThetaR <- lift (load PathList 1 Nrows Ncols);
  do DfVG_Ksat <- lift (load PathList 2 Nrows Ncols);
  do DfVG_Alpha <- lift (load PathList 3 Nrows Ncols);
  do DfVG_N <- lift (load PathList 4 Nrows Ncols);
  emit writes Nrows Ncols DfVG_ThetaS DfVG_ThetaR DfVG_Ksat DfVG_Alpha
    DfVG_N.

End Run.

End Script.

Import Script.

(** ** Vocabulary of the statements *)

(** The cells that do not hold [c]. *)
Definition without {A} (eqb : A -> A -> bool) (c : A) (l : list A) : list A :=
  List.filter (fun x => negb (eqb x c)) l.

(** The number held at row [r], column [c] of a grid. *)
Definition cell_at {A} (grid : list (list A)) (r c : nat) : option A :=
  match nth_error grid r with
  | Some row => nth_error row c
  | None => None
  end.

(** The IDs of line 156 as the cells of a column. *)
Definition SuperCats_column (DfVG_ThetaS : list (list float)) : list cell :=
  SuperCats_cells (flatten DfVG_ThetaS).


(** The IDs 0, 1, ..., k-1. *)
Definition first_ids (k : nat) : list Z := map Z.of_nat (seq 0 k).



(** The data row of a Supercategory ID. *)
Definition details_row (id : cell) : list cell :=
  [CStr "<SoilDetail>"; id; CInt 1; id; CFloat 2.0; CStr "</SoilDetail>"].

(** The column names of the soil-detail table. *)
Definition details_header : list string :=
  ["<SoilDetails>"; "SuperCats"; "SoilLayer"; "SoilType"; "Depth[m]";
   "</SoilDetails>"].

(** The frame of lines 188-194 once every assignment is carried out. *)
Definition details_frame (ids : list cell) : DataFrame :=
  let k := length ids in
  {| index := k;
     columns :=
       [("<SoilDetails>", repeat (CStr "<SoilDetail>") k);
        ("SuperCats", ids);
        ("SoilLayer", repeat (CInt 1) k);
        ("SoilType", ids);
        ("Depth[m]", repeat (CFloat 2.0) k);
        ("</SoilDetails>", repeat (CStr "</SoilDetail>") k)] |}.

(** The frame of lines 166-175 when no assignment raises. *)
Definition properties_frame (ids S R K A N : list cell) : DataFrame :=
  let k := length ids in
  {| index := k;
     columns :=
       [("SoilProperty", repeat (CStr "<SoilProperty>") k);
        ("SuperCats", ids);
        ("SoilType", ids);
        ("VG_ThetaS", S);
        ("VG_ThetaR", R);
        ("VG_Ksat", K);
        ("VG_alpha", A);
        ("VG_n", N);
        ("</SoilProperty>", repeat (CStr "</SoilProperty>") k)] |}.

(** The header of the first file is read and gives a shape that the
    machine holds. *)
Definition metadata_read (readlines : string -> list string)
    (allocates : nat -> nat -> bool) (PathList : list string) : Prop :=
  forall path, nth_error PathList 0 = Some path ->
    exists found shape,
      Metadata.scan_lines (readlines path) None None = Ok found /\
      Metadata.np_zeros_shape allocates (snd found) (fst found) = Ok shape.

(** Every file that was found loads. *)
Definition files_load
    (ASCtoDfParam : string -> Z -> Z -> result (list (list float)))
    (PathList : list string) : Prop :=
  forall path r c, In path PathList -> exists G, ASCtoDfParam path r c = Ok G.

(** The sign, mantissa and exponent of -999. *)
Definition NoData_SF : spec_float := Eval vm_compute in Prim2SF NoData.

(** The data row of the soil-property table for the ID [i] and one value
    of each parameter. *)
Definition properties_row (i : nat) (thetaS thetaR ksat alpha n : float)
    : list cell :=
  [CStr "<SoilProperty>"; CInt (Z.of_nat i); CInt (Z.of_nat i);
   CFloat thetaS; CFloat thetaR; CFloat ksat; CFloat alpha; CFloat n;
   CStr "</SoilProperty>"].

(** The column names of the soil-property table. *)
Definition properties_header : list string :=
  ["SoilProperty"; "SuperCats"; "SoilType"; "VG_ThetaS"; "VG_ThetaR";
   "VG_Ksat"; "VG_alpha"; "VG_n"; "</SoilProperty>"].

(** The number of unique values of a grid. *)
Definition distinct_values (Df : list (list float)) : nat :=
  length (unique pd_eq (flatten Df)).

(** A blank, a tab, a line feed or a carriage return. *)
Definition is_space (c : ascii) : bool :=
  Ascii.eqb c " "%char || Ascii.eqb c "009"%char ||
  Ascii.eqb c "010"%char || Ascii.eqb c "013"%char.

(** A header line of an ASCII grid as [readlines] hands it over: a word,
    blanks, a run of characters and the end of the line. *)
Definition header_line (word : string) (blanks : nat) (text ending : list ascii)
    : string :=
  word +:+ string_of_list_ascii (repeat " "%char blanks ++ text ++ ending).

(** The end of a line: white space only (a line feed, or nothing on the
    last line of a file). *)
Definition line_end (ending : list ascii) : Prop :=
  forallb is_space ending = true.

(** A line that holds neither of the two words the reader looks for. *)
Definition plain_line (line : string) : Prop :=
  Metadata.line_contains Metadata.NColsString line = false /\
  Metadata.line_contains Metadata.NRowsString line = false.

(** A character that starts no match of the pattern. *)
Definition inert (c : ascii) : bool :=
  negb (Metadata.is_digit c) && negb (Ascii.eqb c Metadata.minus_sign).

(** A non-empty run of decimal digits. *)
Definition digits (ds : list ascii) : Prop :=
  ds <> [] /\ forallb Metadata.is_digit ds = true.

(** A run of digits that every Python 3 converts: from Python 3.11 on
    [int] refuses a text of more than 4300 digits. *)
Definition convertible (ds : list ascii) : Prop := (length ds <= 4300)%nat.

(** ** Inputs of the examples *)

(** The example grid of the specification. *)
Definition grid_22 : list (list float) := [[0.4; 0.4]; [0.5; 0.4]]%float.

(** A grid of two rows and three columns of no-data cells. *)
Definition grid_nodata : list (list float) :=
  [[NoData; NoData; NoData]; [NoData; NoData; NoData]].

(** A grid of one cell. *)
Definition one_cell (v : float) : list (list float) := [[v]].

(** One row of two cells that hold the same value. *)
Definition row_same : list (list float) := [[0.4; 0.4]]%float.


(** One row of two cells that differ. *)
Definition row_differ : list (list float) := [[0.1; 0.2]]%float.

(** The line feed that ends a line. *)
Definition newline : ascii := "010"%char.

(** Every file has the header of a grid of one row and two columns. *)
Definition header_1x2 (path : string) : list string :=
  [header_line "ncols" 9 ["2"%char] [newline];
   header_line "nrows" 9 ["1"%char] [newline];
   header_line "NODATA_value" 2 (list_ascii_of_string "-999") [newline]].

(** A directory in which every file is written, and one in which the
    write of the Soil Details file breaks off after its header line. *)
Definition every_path (path : string) : write_end := Written.

Definition details_cut (path : string) : write_end :=
  if String.eqb path SoilDetailsPath then BrokenOff 1 else Written.

(** A machine that holds every array. *)
Definition any_shape (Nrows Ncols : nat) : bool := true.

(** The ThetaR file holds two values, every other file one value twice. *)
Definition load_row (path : string) (r c : Z) : result (list (list float)) :=
  if String.eqb path "5km_2_ThetaR.asc" then Ok row_differ else Ok row_same.

(** The five files in the order the script expects, and the first four. *)
Definition five_files : list string :=
  ["5km_1_ThetaS.asc"; "5km_2_ThetaR.asc"; "5km_3_Ksat.asc";
   "5km_4_Alpha.asc"; "5km_5_N.asc"].

Definition four_files : list string := firstn 4 five_files.

(** * Part II: facts about the model *)

(** ** The two equalities on floats *)

Section FloatFacts.

Lemma compare_cont_Eq m1 m2 : Pos.compare_cont Eq m1 m2 = Eq <-> m1 = m2.
Proof. exact (Pos.compare_eq_iff m1 m2). Qed.

Lemma SFeqb_key a b :
  SFeqb a b = true <-> exists k, sf_key a = Some k /\ sf_key b = Some k.
Proof.
  unfold SFeqb. split.
  - destruct a as [sa|sa| |sa ma ea], b as [sb|sb| |sb mb eb]; simpl;
      try discriminate; try (destruct sa; discriminate);
      try (destruct sb; discriminate).
    + intros _. now exists KZero.
    + destruct sa, sb; try discriminate; intros _; eexists; eauto.
    + destruct sa, sb; try discriminate;
        destruct (Z.compare_spec ea eb) as [->| |]; try discriminate;
        destruct (Pos.compare_cont Eq ma mb) eqn:E; try discriminate;
        apply compare_cont_Eq in E; subst; intros _; eexists; eauto.
  - intros (k & Ha & Hb).
    destruct a as [sa|sa| |sa ma ea], b as [sb|sb| |sb mb eb]; simpl in *;
      try congruence.
    + assert (sa = sb) by congruence. subst. now destruct sb.
    + assert (sa = sb /\ ma = mb /\ ea = eb) as (-> & -> & ->)
        by (repeat split; congruence).
      rewrite Z.compare_refl.
      assert (Pos.compare_cont Eq mb mb = Eq) as -> by now apply compare_cont_Eq.
      now destruct sb.
Qed.

Lemma py_eq_key x y :
  py_eq x y = true <-> exists k, key x = Some k /\ key y = Some k.
Proof. unfold py_eq, key. rewrite FloatAxioms.eqb_spec. apply SFeqb_key. Qed.

Lemma is_nan_key x : is_nan x = true <-> key x = None.
Proof.
  unfold is_nan. rewrite negb_true_iff. split.
  - intros H. destruct (key x) as [k|] eqn:E; [|reflexivity].
    assert (py_eq x x = true) by (apply py_eq_key; eauto).
    unfold py_eq in *. congruence.
  - intros H. destruct (x =? x)%float eqn:E; [|reflexivity].
    apply py_eq_key in E. destruct E as (k & E & _). congruence.
Qed.

Lemma pd_eq_key x y : pd_eq x y = true <-> key x = key y.
Proof.
  unfold pd_eq. rewrite orb_true_iff, andb_true_iff, py_eq_key, !is_nan_key.
  split.
  - intros [(k & -> & ->)|[-> ->]]; reflexivity.
  - intros H. destruct (key x) as [k|] eqn:E; [left; eauto | right; auto].
Qed.

Lemma pd_eq_refl x : pd_eq x x = true.
Proof. now apply pd_eq_key. Qed.

Lemma pd_eq_sym x y : pd_eq x y = pd_eq y x.
Proof.
  destruct (pd_eq x y) eqn:E1, (pd_eq y x) eqn:E2; try reflexivity.
  - apply pd_eq_key in E1. symmetry in E1. apply pd_eq_key in E1. congruence.
  - apply pd_eq_key in E2. symmetry in E2. apply pd_eq_key in E2. congruence.
Qed.

Lemma pd_eq_trans x y z : pd_eq x y = true -> pd_eq y z = true -> pd_eq x z = true.
Proof. rewrite !pd_eq_key. congruence. Qed.

(** Away from NaN the two equalities agree. *)
Lemma py_eq_pd_eq x y : is_nan y = false -> py_eq x y = pd_eq x y.
Proof. intros H. unfold pd_eq. rewrite H, andb_false_r, orb_false_r. reflexivity. Qed.

(** A float that compares equal to a nonzero number is that number. *)
Lemma py_eq_finite_inv x y s m e :
  Prim2SF y = S754_finite s m e -> py_eq x y = true -> x = y.
Proof.
  intros Hy H. apply py_eq_key in H. destruct H as (k & Hx & Hk).
  unfold key in *. rewrite Hy in Hk. simpl in Hk.
  rewrite <- (SF2Prim_Prim2SF x), <- (SF2Prim_Prim2SF y). f_equal.
  rewrite Hy. destruct (Prim2SF x); simpl in Hx; congruence.
Qed.

Lemma py_eq_sym x y : py_eq x y = py_eq y x.
Proof.
  destruct (py_eq x y) eqn:E1, (py_eq y x) eqn:E2; try reflexivity.
  - apply py_eq_key in E1. destruct E1 as (k & ? & ?).
    assert (py_eq y x = true) by (apply py_eq_key; eauto). congruence.
  - apply py_eq_key in E2. destruct E2 as (k & ? & ?).
    assert (py_eq x y = true) by (apply py_eq_key; eauto). congruence.
Qed.

Lemma py_eq_implies_pd_eq x y : py_eq x y = true -> pd_eq x y = true.
Proof. intros H. unfold pd_eq. now rewrite H. Qed.

End FloatFacts.

(** ** [unique] under an equivalence *)

Section UniqueFacts.
Context {A : Type} (eqb : A -> A -> bool).
Local Abbreviation seen := (seen eqb).
Local Abbreviation unique := (unique eqb).
Local Abbreviation unique_from := (unique_from eqb).
Local Abbreviation index_of := (index_of eqb).
Local Abbreviation distinctb := (distinctb eqb).
Local Abbreviation first_seen := (first_seen eqb).
Local Abbreviation distinct_before := (distinct_before eqb).
Local Abbreviation distinct_count := (distinct_count eqb).

Hypothesis eqb_refl : forall x, eqb x x = true.
Hypothesis eqb_sym : forall x y, eqb x y = eqb y x.
Hypothesis eqb_trans :
  forall x y z, eqb x y = true -> eqb y z = true -> eqb x z = true.

Lemma seen_app x t1 t2 : seen x (t1 ++ t2) = seen x t1 || seen x t2.
Proof. apply existsb_app. Qed.

Lemma seen_true x t : seen x t = true <-> exists y, In y t /\ eqb y x = true.
Proof. apply existsb_exists. Qed.

Lemma seen_false x t : seen x t = false <-> forall y, In y t -> eqb y x = false.
Proof.
  split.
  - intros H y Hy. destruct (eqb y x) eqn:E; [|reflexivity].
    assert (seen x t = true) by (apply seen_true; eauto). congruence.
  - intros H. destruct (seen x t) eqn:E; [|reflexivity].
    apply seen_true in E. destruct E as (y & Hy & E).
    rewrite (H y Hy) in E. discriminate.
Qed.

Lemma eqb_cong z x y : eqb x y = true -> eqb z x = eqb z y.
Proof.
  intros E.
  destruct (eqb z x) eqn:E1, (eqb z y) eqn:E2; try reflexivity.
  - rewrite (eqb_trans z x y E1 E) in E2. discriminate.
  - rewrite eqb_sym in E. rewrite (eqb_trans z y x E2 E) in E1. discriminate.
Qed.

Lemma seen_eqb x y t : eqb x y = true -> seen x t = seen y t.
Proof.
  intros E. induction t as [|z t IH]; simpl; [reflexivity|].
  now rewrite IH, (eqb_cong z x y E).
Qed.

Lemma unique_from_app t l1 l2 :
  unique_from t (l1 ++ l2) = unique_from (unique_from t l1) l2.
Proof. apply fold_left_app. Qed.

Lemma unique_from_cons t a l :
  unique_from t (a :: l) =
  unique_from (if seen a t then t else t ++ [a]) l.
Proof. reflexivity. Qed.

Lemma unique_from_extends t l : exists s, unique_from t l = t ++ s.
Proof.
  revert t. induction l as [|a l IH]; intros t.
  - exists []. simpl. now rewrite app_nil_r.
  - rewrite unique_from_cons. destruct (seen a t).
    + apply IH.
    + destruct (IH (t ++ [a])) as [s Hs]. exists (a :: s).
      rewrite Hs, <- app_assoc. reflexivity.
Qed.

Lemma seen_unique_from x t l : seen x (unique_from t l) = seen x (t ++ l).
Proof.
  revert t. induction l as [|a l IH]; intros t.
  - simpl. now rewrite app_nil_r.
  - rewrite unique_from_cons, IH. destruct (seen a t) eqn:Ea.
    + rewrite !seen_app. simpl. destruct (eqb a x) eqn:E; [|reflexivity].
      rewrite <- (seen_eqb a x t E), Ea. reflexivity.
    + rewrite <- app_assoc. reflexivity.
Qed.

Lemma seen_unique x l : seen x (unique l) = seen x l.
Proof. unfold unique. now rewrite seen_unique_from. Qed.

Lemma distinctb_snoc t x :
  distinctb t = true -> seen x t = false -> distinctb (t ++ [x]) = true.
Proof.
  induction t as [|y t IH]; simpl; intros Hd Hx; [reflexivity|].
  apply andb_true_iff in Hd. destruct Hd as [Hy Hd].
  apply orb_false_iff in Hx. destruct Hx as [Hyx Hx].
  rewrite seen_app, IH by assumption. simpl.
  rewrite eqb_sym, Hyx. apply negb_true_iff in Hy. rewrite Hy. reflexivity.
Qed.

Lemma distinctb_unique_from t l :
  distinctb t = true -> distinctb (unique_from t l) = true.
Proof.
  revert t. induction l as [|a l IH]; intros t Hd; [assumption|].
  rewrite unique_from_cons. apply IH.
  destruct (seen a t) eqn:Ea; [assumption|].
  now apply distinctb_snoc.
Qed.

Lemma distinctb_unique l : distinctb (unique l) = true.
Proof. now apply distinctb_unique_from. Qed.

(** In a list without repetition each value sits at its own index. *)
Lemma index_of_nth t i x :
  distinctb t = true -> nth_error t i = Some x -> index_of x t = Some i.
Proof.
  revert i. induction t as [|y t IH]; intros i Hd Hi.
  - destruct i; discriminate.
  - simpl in Hd. apply andb_true_iff in Hd. destruct Hd as [Hy Hd].
    destruct i as [|i]; simpl in *.
    + injection Hi as ->. now rewrite eqb_refl.
    + apply negb_true_iff in Hy.
      assert (eqb y x = false) as ->.
      { rewrite eqb_sym. eapply seen_false; eauto using nth_error_In. }
      now rewrite (IH i Hd Hi).
Qed.

Lemma index_of_None x t : index_of x t = None <-> seen x t = false.
Proof.
  induction t as [|y t IH]; simpl; [tauto|].
  destruct (eqb y x); simpl; [split; discriminate|].
  rewrite <- IH. destruct (index_of x t); simpl; split; congruence.
Qed.

Lemma index_of_Some x t i :
  index_of x t = Some i ->
  exists y, nth_error t i = Some y /\ eqb y x = true.
Proof.
  revert i. induction t as [|y t IH]; intros i; simpl; [discriminate|].
  destruct (eqb y x) eqn:E.
  - intros [= <-]. eauto.
  - destruct (index_of x t) as [j|]; simpl; [|discriminate].
    intros [= <-]. simpl. now apply IH.
Qed.

Lemma index_of_eqb x y t : eqb x y = true -> index_of x t = index_of y t.
Proof.
  intros E. induction t as [|z t IH]; simpl; [reflexivity|].
  now rewrite IH, (eqb_cong z x y E).
Qed.

(** Two values have the same index exactly when they are equal. *)
Lemma index_of_same x y t i :
  index_of x t = Some i -> (index_of y t = Some i <-> eqb x y = true).
Proof.
  intros Hx. split.
  - intros Hy. apply index_of_Some in Hx, Hy.
    destruct Hx as (z & Hz & Ex), Hy as (z' & Hz' & Ey).
    assert (z' = z) by congruence. subst.
    rewrite eqb_sym in Ex. eauto.
  - intros E. now rewrite <- (index_of_eqb x y t E).
Qed.

Lemma index_of_app_new x t s :
  seen x t = false -> index_of x (t ++ x :: s) = Some (length t).
Proof.
  induction t as [|y t IH]; simpl; intros H.
  - now rewrite eqb_refl.
  - apply orb_false_iff in H. destruct H as [-> H]. now rewrite IH.
Qed.

Lemma first_seen_app l r j :
  (j < length l)%nat -> first_seen (l ++ r) j = first_seen l j.
Proof.
  intros H. unfold first_seen.
  rewrite nth_error_app1 by assumption.
  rewrite firstn_app.
  replace (j - length l)%nat with 0%nat by lia.
  simpl. now rewrite app_nil_r.
Qed.

Lemma distinct_before_app l r i :
  (i <= length l)%nat -> distinct_before (l ++ r) i = distinct_before l i.
Proof.
  intros H. unfold distinct_before. f_equal. apply filter_ext_in.
  intros j Hj. apply in_seq in Hj. apply first_seen_app. lia.
Qed.

Lemma first_seen_middle l x r :
  first_seen (l ++ x :: r) (length l) = negb (seen x l).
Proof.
  unfold first_seen.
  rewrite nth_error_app2, Nat.sub_diag by lia. simpl.
  rewrite firstn_app, Nat.sub_diag, firstn_all. simpl.
  now rewrite app_nil_r.
Qed.

(** [unique] keeps one value per distinct value. *)
Lemma distinct_before_S l i :
  distinct_before l (S i) =
  (distinct_before l i + if first_seen l i then 1 else 0)%nat.
Proof.
  unfold distinct_before. rewrite seq_S, List.filter_app, length_app.
  simpl. now destruct (first_seen l i).
Qed.

Lemma length_unique l : length (unique l) = distinct_count l.
Proof.
  induction l as [|x l IH] using rev_ind; [reflexivity|].
  unfold distinct_count. rewrite length_app. simpl.
  rewrite Nat.add_1_r, distinct_before_S, distinct_before_app by lia.
  fold (distinct_count l). rewrite first_seen_middle, <- IH.
  unfold unique at 1. rewrite unique_from_app. fold (unique l).
  rewrite unique_from_cons. simpl. rewrite seen_unique.
  destruct (seen x l); simpl; [lia|].
  rewrite length_app. simpl. lia.
Qed.

(** The value first met at cell [i] is kept at the position that counts
    the distinct values met before. *)
Lemma index_of_first_seen l i x :
  nth_error l i = Some x -> first_seen l i = true ->
  index_of x (unique l) = Some (distinct_before l i).
Proof.
  intros Hi Hf.
  destruct (nth_error_split l i Hi) as (l1 & l2 & -> & Hlen). subst i.
  rewrite first_seen_middle in Hf. apply negb_true_iff in Hf.
  rewrite distinct_before_app by lia. fold (distinct_count l1).
  unfold unique. rewrite unique_from_app. fold (unique l1).
  rewrite unique_from_cons, seen_unique, Hf.
  destruct (unique_from_extends (unique l1 ++ [x]) l2) as [s ->].
  rewrite <- app_assoc. simpl.
  rewrite index_of_app_new by now rewrite seen_unique.
  now rewrite length_unique.
Qed.

Lemma index_of_unique_In x l :
  In x l -> exists i, index_of x (unique l) = Some i.
Proof.
  intros H. destruct (index_of x (unique l)) as [i|] eqn:E; [eauto|].
  apply index_of_None in E. rewrite seen_unique in E.
  pose proof (proj1 (seen_false x l) E x H) as E'.
  rewrite eqb_refl in E'. discriminate.
Qed.

End UniqueFacts.

(** ** Changing the equality, and mapping the values *)

Lemma In_firstn_In {A} (y : A) i l : In y (firstn i l) -> In y l.
Proof.
  intros H. rewrite <- (firstn_skipn i l). apply in_or_app. now left.
Qed.

Section UniqueExt.
Context {A : Type} (e1 e2 : A -> A -> bool).

Lemma seen_ext x t :
  (forall y, In y t -> e1 y x = e2 y x) -> seen e1 x t = seen e2 x t.
Proof.
  induction t as [|z t IH]; simpl; intros H; [reflexivity|].
  rewrite H, IH by auto. reflexivity.
Qed.

Lemma index_of_ext x t :
  (forall y, In y t -> e1 y x = e2 y x) -> index_of e1 x t = index_of e2 x t.
Proof.
  induction t as [|z t IH]; simpl; intros H; [reflexivity|].
  rewrite H, IH by auto. reflexivity.
Qed.

Lemma distinctb_weaken t :
  (forall x y, e1 x y = true -> e2 x y = true) ->
  distinctb e2 t = true -> distinctb e1 t = true.
Proof.
  intros Himp. induction t as [|z t IH]; simpl; [reflexivity|].
  rewrite !andb_true_iff, !negb_true_iff. intros [Hz Hd]. split; [|auto].
  destruct (seen e1 z t) eqn:E; [|reflexivity].
  apply existsb_exists in E. destruct E as (y & Hy & E).
  assert (seen e2 z t = true) by (apply existsb_exists; eauto).
  congruence.
Qed.

Lemma first_seen_ext l i :
  (forall x y, In x l -> In y l -> e1 y x = e2 y x) ->
  first_seen e1 l i = first_seen e2 l i.
Proof.
  intros H. unfold first_seen.
  destruct (nth_error l i) as [x|] eqn:E; [|reflexivity].
  f_equal. apply seen_ext. intros y Hy. apply H.
  - eapply nth_error_In; eauto.
  - eapply In_firstn_In; eauto.
Qed.

Lemma distinct_before_ext l i :
  (forall x y, In x l -> In y l -> e1 y x = e2 y x) ->
  distinct_before e1 l i = distinct_before e2 l i.
Proof.
  intros H. unfold distinct_before. f_equal.
  apply filter_ext. intros j. now apply first_seen_ext.
Qed.

End UniqueExt.

Section UniqueMap.
Context {A B : Type} (eqa : A -> A -> bool) (eqb : B -> B -> bool) (f : A -> B).

Lemma seen_map x t :
  (forall y, In y t -> eqb (f y) (f x) = eqa y x) ->
  seen eqb (f x) (map f t) = seen eqa x t.
Proof.
  induction t as [|z t IH]; simpl; intros H; [reflexivity|].
  rewrite H, IH by auto. reflexivity.
Qed.

Lemma unique_from_map t l :
  (forall x y, In x (t ++ l) -> In y (t ++ l) -> eqb (f x) (f y) = eqa x y) ->
  unique_from eqb (map f t) (map f l) = map f (unique_from eqa t l).
Proof.
  revert t. induction l as [|a l IH]; intros t H; [reflexivity|].
  change (map f (a :: l)) with (f a :: map f l). rewrite !unique_from_cons.
  rewrite seen_map by (intros y Hy; apply H; rewrite in_app_iff; simpl; auto).
  destruct (seen eqa a t).
  - apply IH. intros x y Hx Hy. apply H.
    + rewrite in_app_iff in *. simpl. tauto.
    + rewrite in_app_iff in *. simpl. tauto.
  - rewrite <- (IH (t ++ [a])).
    + now rewrite map_app.
    + intros x y Hx Hy. rewrite <- app_assoc in Hx, Hy. now apply H.
Qed.

(** Values that are told apart exactly as their images are have their
    images deduplicated alike. *)
Lemma unique_map l :
  (forall x y, In x l -> In y l -> eqb (f x) (f y) = eqa x y) ->
  unique eqb (map f l) = map f (unique eqa l).
Proof. intros H. apply (unique_from_map [] l H). Qed.

End UniqueMap.

(** ** The dict built from distinct keys *)

Section DictFacts.
Context {K V : Type} (keq : K -> K -> bool).
Hypothesis keq_sym : forall x y, keq x y = keq y x.

Lemma dict_set_new (d : list (K * V)) k v :
  seen keq k (map fst d) = false -> dict_set keq d k v = d ++ [(k, v)].
Proof.
  induction d as [|[k' v'] d IH]; simpl; intros H; [reflexivity|].
  apply orb_false_iff in H. destruct H as [-> H]. now rewrite IH.
Qed.

Lemma distinctb_app_seen t x s :
  distinctb keq (t ++ x :: s) = true -> seen keq x t = false.
Proof.
  induction t as [|y t IH]; simpl; intros H; [reflexivity|].
  apply andb_true_iff in H. destruct H as [Hy H].
  apply negb_true_iff in Hy. rewrite IH by assumption.
  unfold seen in Hy. rewrite existsb_app in Hy. simpl in Hy.
  apply orb_false_iff in Hy. destruct Hy as [_ Hy].
  apply orb_false_iff in Hy. destruct Hy as [Hy _].
  rewrite keq_sym, Hy. reflexivity.
Qed.

Lemma to_dict_from (d items : list (K * V)) :
  distinctb keq (map fst (d ++ items)) = true ->
  fold_left (fun d kv => dict_set keq d (fst kv) (snd kv)) items d = d ++ items.
Proof.
  revert d. induction items as [|[k v] items IH]; intros d H; simpl.
  - now rewrite app_nil_r.
  - rewrite dict_set_new.
    + rewrite IH; rewrite <- app_assoc; [reflexivity | exact H].
    + rewrite map_app in H. simpl in H. eapply distinctb_app_seen, H.
Qed.

(** No key is stored twice, so nothing is replaced. *)
Lemma to_dict_distinct (items : list (K * V)) :
  distinctb keq (map fst items) = true -> to_dict keq items = items.
Proof. intros H. unfold to_dict. now rewrite to_dict_from. Qed.

End DictFacts.

Lemma dict_get_enumerate {K} (keq : K -> K -> bool) u n x :
  dict_get keq (combine u (map Z.of_nat (seq n (length u)))) x =
  option_map (fun i => Z.of_nat (n + i)) (index_of keq x u).
Proof.
  revert n. induction u as [|y u IH]; intros n; simpl; [reflexivity|].
  destruct (keq y x).
  - simpl. now rewrite Nat.add_0_r.
  - rewrite IH. destruct (index_of keq x u); simpl; [|reflexivity].
    do 2 f_equal. lia.
Qed.

Lemma map_fst_combine {X Y} (l : list X) (l' : list Y) :
  length l = length l' -> map fst (combine l l') = l.
Proof.
  revert l'. induction l as [|a l IH]; intros [|b l'] H; simpl in *;
    try discriminate; [reflexivity|].
  f_equal. apply IH. lia.
Qed.

Lemma unique_from_In {A} (eqb : A -> A -> bool) y t l :
  In y (unique_from eqb t l) -> In y t \/ In y l.
Proof.
  revert t. induction l as [|a l IH]; intros t H; [now left|].
  rewrite unique_from_cons in H. apply IH in H.
  destruct (seen eqb a t); simpl.
  - tauto.
  - rewrite in_app_iff in H. simpl in H. tauto.
Qed.

Lemma unique_In {A} (eqb : A -> A -> bool) y l :
  In y (unique eqb l) -> In y l.
Proof. intros H. apply unique_from_In in H. now destruct H. Qed.

Lemma map_enumerate {A} (h : A -> option nat) t n :
  (forall i x, nth_error t i = Some x -> h x = Some (n + i)%nat) ->
  map h t = map Some (seq n (length t)).
Proof.
  revert n. induction t as [|a t IH]; intros n H; [reflexivity|].
  simpl. f_equal.
  - rewrite (H 0%nat a eq_refl). f_equal. lia.
  - apply IH. intros i x Hi. rewrite (H (S i) x Hi). f_equal. lia.
Qed.

(** ** The supercategory of a cell *)

(** The three facts that make [pd_eq] an equivalence. *)
Ltac pd_equiv :=
  first [exact pd_eq_refl | exact pd_eq_sym | exact pd_eq_trans].

Section SuperCatsFacts.

Lemma pd_index_of_unique_In x l :
  In x l -> exists i, index_of pd_eq x (unique pd_eq l) = Some i.
Proof. apply index_of_unique_In; pd_equiv. Qed.

Lemma pd_index_of_same x y t i :
  index_of pd_eq x t = Some i ->
  (index_of pd_eq y t = Some i <-> pd_eq x y = true).
Proof. apply index_of_same; pd_equiv. Qed.

Lemma VG_ThetaS_unique_keys l :
  map fst (VG_ThetaS_unique l) = unique pd_eq l.
Proof.
  unfold VG_ThetaS_unique. apply map_fst_combine.
  now rewrite length_map, length_seq.
Qed.

(** [to_dict] stores every unique value under its own key. *)
Lemma VG_ThetaS_unique_dict_items l :
  VG_ThetaS_unique_dict l = VG_ThetaS_unique l.
Proof.
  unfold VG_ThetaS_unique_dict. apply to_dict_distinct.
  - exact py_eq_sym.
  - rewrite VG_ThetaS_unique_keys.
    apply (distinctb_weaken py_eq pd_eq).
    + exact py_eq_implies_pd_eq.
    + apply distinctb_unique; pd_equiv.
Qed.

(** For a number, the dict hands back the position of its value among the
    unique values. *)
Lemma dict_get_index l x :
  is_nan x = false ->
  dict_get py_eq (VG_ThetaS_unique_dict l) x =
  option_map Z.of_nat (index_of pd_eq x (unique pd_eq l)).
Proof.
  intros Hx. rewrite VG_ThetaS_unique_dict_items. unfold VG_ThetaS_unique.
  rewrite dict_get_enumerate.
  rewrite (index_of_ext py_eq pd_eq)
    by (intros y _; now apply py_eq_pd_eq).
  destruct (index_of pd_eq x (unique pd_eq l)); reflexivity.
Qed.

Lemma SuperCats_nth l i x :
  no_nan l -> nth_error l i = Some x ->
  exists k, index_of pd_eq x (unique pd_eq l) = Some k /\
            nth_error (SuperCats l) i = Some (Some (Z.of_nat k)).
Proof.
  intros Hn Hi.
  assert (In x l) as Hin by (eapply nth_error_In; eauto).
  destruct (pd_index_of_unique_In x l Hin) as [k Hk].
  exists k. split; [assumption|].
  unfold SuperCats. rewrite nth_error_map, Hi. simpl.
  rewrite dict_get_index by auto. now rewrite Hk.
Qed.

(** On a grid of numbers every cell has an ID: the series is int64. *)
Lemma as_float64_no_nan l : no_nan l -> as_float64 (SuperCats l) = false.
Proof.
  intros Hn. unfold as_float64.
  destruct (existsb missing (SuperCats l)) eqn:E; [|reflexivity].
  apply existsb_exists in E. destruct E as (s & Hs & Hm).
  unfold SuperCats in Hs. apply in_map_iff in Hs.
  destruct Hs as (x & <- & Hx).
  rewrite dict_get_index in Hm by auto.
  destruct (pd_index_of_unique_In x l Hx) as [i Hi].
  rewrite Hi in Hm. discriminate.
Qed.

Lemma no_nan_py_pd l x y : no_nan l -> In x l -> In y l -> py_eq y x = pd_eq y x.
Proof. intros Hn Hx _. apply py_eq_pd_eq. auto. Qed.

(** The IDs tell two cells apart exactly when [unique] does. *)
Lemma SuperCats_id_eq l x y :
  no_nan l -> In x l -> In y l ->
  id_eq (dict_get py_eq (VG_ThetaS_unique_dict l) x)
        (dict_get py_eq (VG_ThetaS_unique_dict l) y) = pd_eq x y.
Proof.
  intros Hn Hx Hy. rewrite !dict_get_index by auto.
  destruct (pd_index_of_unique_In x l Hx) as [i Hi].
  destruct (pd_index_of_unique_In y l Hy) as [j Hj].
  rewrite Hi, Hj. simpl. unfold id_eq.
  pose proof (pd_index_of_same x y _ i Hi) as Hs.
  destruct (pd_eq x y).
  - assert (Some j = Some i) as [= ->] by (rewrite <- Hj; now apply Hs).
    now apply bool_decide_eq_true.
  - apply bool_decide_eq_false. intros [= E].
    apply Nat2Z.inj in E. subst j.
    assert (false = true) by now apply Hs. discriminate.
Qed.

(** The distinct IDs are the IDs of the unique values, in their order. *)
Lemma SuperCats_unique_map l :
  no_nan l ->
  SuperCats_unique l =
  map (dict_get py_eq (VG_ThetaS_unique_dict l)) (unique pd_eq l).
Proof.
  intros Hn. unfold SuperCats_unique, SuperCats.
  apply unique_map. intros x y Hx Hy. now apply SuperCats_id_eq.
Qed.

(** They count up from 0. *)
Lemma SuperCats_unique_enumerate l :
  no_nan l ->
  SuperCats_unique l =
  map (fun k => Some (Z.of_nat k)) (seq 0 (length (unique pd_eq l))).
Proof.
  intros Hn. rewrite SuperCats_unique_map by assumption.
  transitivity
    (map (option_map Z.of_nat)
       (map (fun x => index_of pd_eq x (unique pd_eq l)) (unique pd_eq l))).
  - rewrite map_map. apply map_ext_in. intros x Hx.
    apply dict_get_index, Hn. eapply unique_In; eauto.
  - rewrite (map_enumerate _ _ 0%nat), map_map; [reflexivity|].
    intros i x Hi. apply index_of_nth; try pd_equiv; [|assumption].
    apply distinctb_unique; pd_equiv.
Qed.

End SuperCatsFacts.

(** A NaN is no key of any dict. *)
Lemma dict_get_nan {V} (d : list (float * V)) x :
  is_nan x = true -> dict_get py_eq d x = None.
Proof.
  intros Hx. induction d as [|[k v] d IH]; simpl; [reflexivity|].
  destruct (py_eq k x) eqn:E; [|assumption].
  apply py_eq_key in E. destruct E as (c & _ & E).
  apply is_nan_key in Hx. congruence.
Qed.

Lemma dict_get_index_any l x :
  In x l ->
  dict_get py_eq (VG_ThetaS_unique_dict l) x =
  if is_nan x then None
  else option_map Z.of_nat (index_of pd_eq x (unique pd_eq l)).
Proof.
  intros Hx. destruct (is_nan x) eqn:E.
  - now apply dict_get_nan.
  - now apply dict_get_index.
Qed.

(** With or without NaNs, the entries of [SuperCats] are told apart
    exactly as the ThetaS values are. *)
Lemma SuperCats_id_eq_any l x y :
  In x l -> In y l ->
  id_eq (dict_get py_eq (VG_ThetaS_unique_dict l) x)
        (dict_get py_eq (VG_ThetaS_unique_dict l) y) = pd_eq x y.
Proof.
  intros Hx Hy. rewrite !dict_get_index_any by assumption.
  destruct (pd_index_of_unique_In x l Hx) as [i Hi].
  destruct (pd_index_of_unique_In y l Hy) as [j Hj].
  rewrite Hi, Hj. simpl. unfold id_eq.
  pose proof (pd_index_of_same x y _ i Hi) as Hs.
  destruct (is_nan x) eqn:Nx, (is_nan y) eqn:Ny.
  - unfold pd_eq. rewrite Nx, Ny, orb_true_r. now apply bool_decide_eq_true.
  - unfold pd_eq. rewrite Ny, andb_false_r, orb_false_r.
    destruct (py_eq x y) eqn:E.
    + apply py_eq_key in E. destruct E as (k & E & _).
      apply is_nan_key in Nx. congruence.
    + now apply bool_decide_eq_false.
  - unfold pd_eq. rewrite Nx, orb_false_r.
    destruct (py_eq x y) eqn:E.
    + apply py_eq_key in E. destruct E as (k & _ & E).
      apply is_nan_key in Ny. congruence.
    + now apply bool_decide_eq_false.
  - destruct (pd_eq x y).
    + assert (Some j = Some i) as [= ->] by (rewrite <- Hj; now apply Hs).
      now apply bool_decide_eq_true.
    + apply bool_decide_eq_false. intros [= E].
      apply Nat2Z.inj in E. subst j.
      assert (false = true) by now apply Hs. discriminate.
Qed.

(** Line 156 finds as many IDs as line 158 finds ThetaS values. *)
Lemma length_SuperCats_unique_any l :
  length (SuperCats_unique l) = length (unique pd_eq l).
Proof.
  unfold SuperCats_unique, SuperCats.
  rewrite (unique_map pd_eq id_eq), length_map; [reflexivity|].
  intros x y Hx Hy. now apply SuperCats_id_eq_any.
Qed.

(** ** Frames *)

Lemma ensure_valid_index_same df n :
  index df = n -> ensure_valid_index df n = df.
Proof.
  intros <-. unfold ensure_valid_index.
  destruct (index df); reflexivity.
Qed.

Lemma ensure_valid_index_fresh n :
  ensure_valid_index empty_frame n = {| index := n; columns := [] |}.
Proof. destruct n; reflexivity. Qed.

Lemma reindex_same n col : length col = n -> reindex n col = col.
Proof.
  intros <-. unfold reindex.
  now rewrite firstn_all, Nat.sub_diag, app_nil_r.
Qed.

(** An array of the wrong length is refused by a frame that has rows. *)
Lemma setitem_array_mismatch df name values :
  index df <> 0%nat -> length values <> index df ->
  setitem_array df name values = Raise ValueError.
Proof.
  intros H0 Hne. unfold setitem_array, ensure_valid_index.
  apply Nat.eqb_neq in H0. rewrite H0. simpl.
  apply Nat.eqb_neq in Hne. now rewrite Hne.
Qed.

Lemma setitem_array_match df name values :
  length values = index df ->
  setitem_array df name values =
  Ok {| index := index df; columns := set_column (columns df) name values |}.
Proof.
  intros H. unfold setitem_array.
  rewrite ensure_valid_index_same by auto. now rewrite H, Nat.eqb_refl.
Qed.

Lemma setitem_series_match df name values :
  length values = index df ->
  setitem_series df name values =
  {| index := index df; columns := set_column (columns df) name values |}.
Proof.
  intros H. unfold setitem_series.
  rewrite ensure_valid_index_same by auto. now rewrite reindex_same.
Qed.

Lemma map_nth_seq_from {A} (d : A) l pre :
  map (fun i => nth i (pre ++ l) d) (seq (length pre) (length l)) = l.
Proof.
  revert pre. induction l as [|a l IH]; intros pre; [reflexivity|].
  simpl. f_equal.
  - rewrite app_nth2, Nat.sub_diag by lia. reflexivity.
  - specialize (IH (pre ++ [a])).
    rewrite length_app, Nat.add_1_r, <- app_assoc in IH. exact IH.
Qed.

Lemma map_nth_seq_all {A} (d : A) l :
  map (fun i => nth i l d) (seq 0 (length l)) = l.
Proof. exact (map_nth_seq_from d l []). Qed.

Lemma nth_repeat_lt {A} (c d : A) n i : (i < n)%nat -> nth i (repeat c n) d = c.
Proof.
  revert i. induction n as [|n IH]; intros i H; [lia|].
  destruct i; simpl; [reflexivity|]. apply IH. lia.
Qed.

Lemma concat_chunks {A} (l : list A) n w :
  length l = (n * w)%nat -> concat (chunks n w l) = l.
Proof.
  revert l. induction n as [|n IH]; intros l H; simpl in *.
  - now destruct l.
  - rewrite IH, firstn_skipn; [reflexivity|].
    rewrite length_skipn. lia.
Qed.

(** ** The ways [emit] can end *)

Section EmitFacts.
Variable writes : string -> write_end.
Variables (Nrows Ncols : nat).
Variables (DfVG_ThetaS DfVG_ThetaR DfVG_Ksat DfVG_Alpha DfVG_N : list (list float)).
Variable fs : filesystem.

Local Abbreviation the_emit :=
  (emit writes Nrows Ncols DfVG_ThetaS DfVG_ThetaR DfVG_Ksat DfVG_Alpha
     DfVG_N fs).
Local Abbreviation the_reshape :=
  (reshape (SuperCats (flatten DfVG_ThetaS)) Nrows Ncols).
Local Abbreviation the_properties :=
  (DfSoilSuperProperties DfVG_ThetaS DfVG_ThetaR DfVG_Ksat DfVG_Alpha DfVG_N).
Local Abbreviation the_details :=
  (frame_to_csv (DfSuperDetails DfVG_ThetaS) ",").

(** The statements of lines 116-202 in their order: each one can end the
    run, and what is written before stays. *)
Lemma emit_unfold :
  the_emit =
  match the_reshape with
  | Raise e => (fs, Raise e)
  | Ok D =>
      let fs1 := <[SuperCatsPath := map_to_csv D]> fs in
      match writes SuperCatsPath with
      | Refused => (fs, Raise OSError)
      | BrokenOff n =>
          (<[SuperCatsPath := cut n (map_to_csv D)]> fs, Raise OSError)
      | Written =>
          match the_properties with
          | Raise e => (fs1, Raise e)
          | Ok P =>
              let fs2 := <[SoilPropertiesPath := frame_to_csv P ","]> fs1 in
              match writes SoilPropertiesPath with
              | Refused => (fs1, Raise OSError)
              | BrokenOff n =>
                  (<[SoilPropertiesPath := cut n (frame_to_csv P ",")]> fs1,
                   Raise OSError)
              | Written =>
                  match writes SoilDetailsPath with
                  | Refused => (fs2, Raise OSError)
                  | BrokenOff n =>
                      (<[SoilDetailsPath := cut n the_details]> fs2,
                       Raise OSError)
                  | Written => (<[SoilDetailsPath := the_details]> fs2, Ok tt)
                  end
              end
          end
      end
  end.
Proof.
  unfold emit, bind, lift, write_file.
  destruct the_reshape; [|reflexivity].
  destruct (writes SuperCatsPath); try reflexivity.
  destruct the_properties; [|reflexivity].
  destruct (writes SoilPropertiesPath); reflexivity.
Qed.

Lemma emit_reshape_raises e :
  the_reshape = Raise e -> the_emit = (fs, Raise e).
Proof. intros H. now rewrite emit_unfold, H. Qed.

Lemma emit_succeeds D P :
  the_reshape = Ok D -> the_properties = Ok P ->
  writes SuperCatsPath = Written -> writes SoilPropertiesPath = Written ->
  writes SoilDetailsPath = Written ->
  the_emit =
  (<[SoilDetailsPath := the_details]>
     (<[SoilPropertiesPath := frame_to_csv P ","]>
        (<[SuperCatsPath := map_to_csv D]> fs)),
   Ok tt).
Proof.
  intros H1 H2 W1 W2 W3. now rewrite emit_unfold, H1, W1, H2, W2, W3.
Qed.

(** A run of [emit] that ends well went through all three writes. *)
Lemma emit_Ok_inv fs' :
  the_emit = (fs', Ok tt) ->
  exists D P,
    the_reshape = Ok D /\ the_properties = Ok P /\
    writes SuperCatsPath = Written /\ writes SoilPropertiesPath = Written /\
    writes SoilDetailsPath = Written.
Proof.
  rewrite emit_unfold.
  destruct the_reshape as [D|e]; [|discriminate].
  destruct (writes SuperCatsPath); try discriminate.
  destruct the_properties as [P|e]; [|discriminate].
  destruct (writes SoilPropertiesPath); try discriminate.
  destruct (writes SoilDetailsPath); try discriminate.
  intros _. exists D, P. auto.
Qed.

(** When the reshape passes and the write of the map ends well, the map
    is in the directory however the run goes on. *)
Lemma emit_map_written D :
  the_reshape = Ok D -> writes SuperCatsPath = Written ->
  fst the_emit !! SuperCatsPath = Some (map_to_csv D).
Proof.
  intros H W. rewrite emit_unfold, H, W.
  assert (SuperCatsPath <> SoilPropertiesPath /\
          SuperCatsPath <> SoilDetailsPath) as [N1 N2]
    by (split; discriminate).
  destruct the_properties; cbv zeta;
    [|simpl; now rewrite lookup_insert_eq].
  destruct (writes SoilPropertiesPath), (writes SoilDetailsPath); simpl;
    now rewrite ?lookup_insert_ne, lookup_insert_eq by auto.
Qed.

End EmitFacts.

Lemma paths_differ :
  SuperCatsPath <> SoilPropertiesPath /\
  SuperCatsPath <> SoilDetailsPath /\
  SoilPropertiesPath <> SoilDetailsPath.
Proof. repeat split; discriminate. Qed.

(** ** The two tables in closed form *)

Lemma setitem_series_fresh name values :
  setitem_series empty_frame name values =
  {| index := length values; columns := [(name, values)] |}.
Proof.
  unfold setitem_series. rewrite ensure_valid_index_fresh. simpl.
  now rewrite reindex_same.
Qed.

(** One assignment to a frame that is already in closed form. *)
Ltac frame_step :=
  match goal with
  | |- context [setitem_series {| index := ?k; columns := ?c |} ?n ?v] =>
      rewrite (setitem_series_match {| index := k; columns := c |} n v)
        by (simpl; rewrite ?repeat_length; reflexivity)
  | |- context [setitem_scalar {| index := ?k; columns := ?c |} ?n ?v] =>
      change (setitem_scalar {| index := k; columns := c |} n v)
        with {| index := k; columns := set_column c n (repeat v k) |}
  end; simpl index; simpl columns; simpl set_column.

Lemma DfSuperDetails_frame Df :
  DfSuperDetails Df = details_frame (SuperCats_column Df).
Proof.
  unfold DfSuperDetails, details_frame. fold (SuperCats_column Df).
  cbv zeta. rewrite setitem_series_fresh, repeat_length.
  repeat frame_step. reflexivity.
Qed.

Lemma length_SuperCats_column Df :
  length (SuperCats_column Df) = length (VG_Super Df).
Proof.
  unfold SuperCats_column, SuperCats_cells, VG_Super.
  now rewrite !length_map, length_SuperCats_unique_any.
Qed.

(** When the grid has a cell, the table is built exactly when the four
    other arrays of unique values are as long as the list of IDs. *)
Lemma DfSoilSuperProperties_cases S R K A N :
  SuperCats_column S <> [] ->
  let k := length (SuperCats_column S) in
  DfSoilSuperProperties S R K A N =
  if ((length (VG_Super R) =? k)%nat && (length (VG_Super K) =? k)%nat &&
      (length (VG_Super A) =? k)%nat && (length (VG_Super N) =? k)%nat)%bool
  then Ok (properties_frame (SuperCats_column S) (VG_Super S) (VG_Super R)
             (VG_Super K) (VG_Super A) (VG_Super N))
  else Raise ValueError.
Proof.
  intros Hne k.
  assert (k <> 0%nat) as Hk.
  { subst k. destruct (SuperCats_column S); simpl; congruence. }
  unfold DfSoilSuperProperties, properties_frame.
  fold (SuperCats_column S). fold k. cbv zeta.
  rewrite setitem_series_fresh, repeat_length.
  repeat frame_step.
  rewrite setitem_array_match
    by (simpl; subst k; now rewrite length_SuperCats_column).
  simpl.
  destruct (Nat.eqb_spec (length (VG_Super R)) k) as [ER|ER];
    [rewrite setitem_array_match by exact ER
    |rewrite setitem_array_mismatch by (simpl; auto); reflexivity].
  simpl.
  destruct (Nat.eqb_spec (length (VG_Super K)) k) as [EK|EK];
    [rewrite setitem_array_match by exact EK
    |rewrite setitem_array_mismatch by (simpl; auto); reflexivity].
  simpl.
  destruct (Nat.eqb_spec (length (VG_Super A)) k) as [EA|EA];
    [rewrite setitem_array_match by exact EA
    |rewrite setitem_array_mismatch by (simpl; auto); reflexivity].
  simpl.
  destruct (Nat.eqb_spec (length (VG_Super N)) k) as [EN|EN];
    [rewrite setitem_array_match by exact EN
    |rewrite setitem_array_mismatch by (simpl; auto); reflexivity].
  reflexivity.
Qed.

(** ** Counting one value apart *)

Section UniqueFilter.
Context {A : Type} (eqb : A -> A -> bool).
Hypothesis eqb_refl : forall x, eqb x x = true.
Hypothesis eqb_sym : forall x y, eqb x y = eqb y x.
Hypothesis eqb_trans :
  forall x y z, eqb x y = true -> eqb y z = true -> eqb x z = true.

Lemma seen_without c x l :
  eqb x c = false -> seen eqb x (without eqb c l) = seen eqb x l.
Proof.
  intros Hx. induction l as [|y l IH]; simpl; [reflexivity|].
  destruct (eqb y c) eqn:Ey; simpl.
  - rewrite IH. destruct (eqb y x) eqn:Eyx; [|reflexivity].
    rewrite eqb_sym in Eyx.
    rewrite (eqb_trans x y c Eyx Ey) in Hx. discriminate.
  - now rewrite IH.
Qed.

Lemma unique_snoc l x :
  unique eqb (l ++ [x]) =
  if seen eqb x l then unique eqb l else unique eqb l ++ [x].
Proof.
  unfold unique at 1. rewrite unique_from_app. fold (unique eqb l).
  rewrite unique_from_cons. simpl unique_from.
  now rewrite seen_unique.
Qed.

Lemma length_unique_without c l :
  length (unique eqb l) =
  (length (unique eqb (without eqb c l)) + if seen eqb c l then 1 else 0)%nat.
Proof.
  induction l as [|x l IH] using rev_ind; [reflexivity|].
  unfold without in *. rewrite List.filter_app. simpl.
  rewrite unique_snoc, seen_app. simpl. rewrite orb_false_r.
  destruct (eqb x c) eqn:Ex; simpl.
  - rewrite app_nil_r, (seen_eqb eqb eqb_sym eqb_trans x c l Ex).
    rewrite orb_true_r.
    destruct (seen eqb c l); simpl.
    + exact IH.
    + rewrite length_app, IH. simpl. lia.
  - rewrite orb_false_r, unique_snoc.
    fold (without eqb c l). rewrite (seen_without c x l Ex).
    unfold without.
    destruct (seen eqb x l); [exact IH|].
    rewrite !length_app, IH. simpl. lia.
Qed.

End UniqueFilter.

(** * Part III: the properties of the specification *)

Lemma Prim2SF_NoData : Prim2SF NoData = NoData_SF.
Proof. vm_compute. reflexivity. Qed.

Lemma py_eq_NoData_inv v : py_eq v NoData = true -> v = NoData.
Proof. intros H. eapply py_eq_finite_inv; [exact Prim2SF_NoData | exact H]. Qed.

(** C3: the unit converter keeps the length of the flattened Ksat array,
    maps every value other than -999 to its product with 0.01 and every
    -999 to -999; 100.0 becomes exactly 1.0. *)
Theorem unit_converter_spec (DfVG_Ksat : list (list float)) :
  let raw := flatten DfVG_Ksat in
  length (VG_Ksat DfVG_Ksat) = length raw /\
  (forall i v, nth_error raw i = Some v ->
     (py_eq v NoData = false ->
      nth_error (VG_Ksat DfVG_Ksat) i = Some (v * 0.01)%float) /\
     (py_eq v NoData = true ->
      v = NoData /\ nth_error (VG_Ksat DfVG_Ksat) i = Some NoData)) /\
  VG_Ksat [[100%float]] = [1%float].
Proof.
  intros raw. unfold VG_Ksat. fold raw. split; [apply length_map|].
  split; [|reflexivity].
  intros i v Hi. rewrite nth_error_map, Hi. simpl. unfold cm_to_m.
  split; intros H; rewrite H; [reflexivity|].
  apply py_eq_NoData_inv in H. now subst v.
Qed.

(** One row holding 250.5 cm/day and a no-data cell. *)
Lemma unit_converter_spec_witness :
  nth_error (VG_Ksat [[250.5; NoData]]%float) 0 = Some (250.5 * 0.01)%float /\
  nth_error (VG_Ksat [[250.5; NoData]]%float) 1 = Some NoData.
Proof.
  pose proof (proj1 (proj2 (unit_converter_spec [[250.5; NoData]]%float))) as H.
  split.
  - exact (proj1 (H 0%nat 250.5%float eq_refl) eq_refl).
  - exact (proj2 (proj2 (H 1%nat NoData eq_refl) eq_refl)).
Defined.

(** C1: on a grid of numbers, two cells get the same Supercategory ID
    exactly when their ThetaS values are equal, and a cell whose value
    appears for the first time gets the number of distinct values met
    before it (0 for the first, 1 for the second, ...); the 2x2 example
    has two IDs and the map [[0,0],[1,0]], as a frame and, when the
    write of the map ends well, as the file. *)
Theorem supercats_first_appearance (DfVG_ThetaS : list (list float)) :
  let VG_ThetaS := flatten DfVG_ThetaS in
  no_nan VG_ThetaS ->
  (forall i j x y,
     nth_error VG_ThetaS i = Some x -> nth_error VG_ThetaS j = Some y ->
     exists a b,
       nth_error (SuperCats VG_ThetaS) i = Some (Some a) /\
       nth_error (SuperCats VG_ThetaS) j = Some (Some b) /\
       (a = b <-> py_eq x y = true)) /\
  (forall i,
     first_seen py_eq VG_ThetaS i = true ->
     nth_error (SuperCats VG_ThetaS) i =
     Some (Some (Z.of_nat (distinct_before py_eq VG_ThetaS i)))) /\
  (SuperCats_unique (flatten grid_22) = [Some 0; Some 1] /\
   reshape (SuperCats (flatten grid_22)) 2 2 =
     Ok [[Some 0; Some 0]; [Some 1; Some 0]] /\
   forall writes R K A N fs,
     writes SuperCatsPath = Written ->
     fst (emit writes 2 2 grid_22 R K A N fs) !! SuperCatsPath =
     Some {| sep := " "; header := None;
             rows := [[CInt 0; CInt 0]; [CInt 1; CInt 0]] |}).
Proof.
  intros l Hn. split; [|split].
  - intros i j x y Hi Hj.
    destruct (SuperCats_nth l i x Hn Hi) as (a & Ha & Hsa).
    destruct (SuperCats_nth l j y Hn Hj) as (b & Hb & Hsb).
    exists (Z.of_nat a), (Z.of_nat b). repeat split; try assumption.
    + intros E. apply Nat2Z.inj in E. subst b.
      rewrite (py_eq_pd_eq x y) by (apply Hn; eapply nth_error_In; eauto).
      now apply (pd_index_of_same x y _ a Ha).
    + intros E.
      rewrite (py_eq_pd_eq x y) in E by (apply Hn; eapply nth_error_In; eauto).
      apply (pd_index_of_same x y _ a Ha) in E.
      assert (Some b = Some a) as [= ->] by congruence. reflexivity.
  - intros i Hf.
    assert (forall x y, In x l -> In y l -> py_eq y x = pd_eq y x) as Hext
      by (intros x y Hx Hy; now apply (no_nan_py_pd l)).
    rewrite (first_seen_ext py_eq pd_eq l i Hext) in Hf.
    rewrite (distinct_before_ext py_eq pd_eq l i Hext).
    destruct (nth_error l i) as [x|] eqn:Hi;
      [|unfold first_seen in Hf; rewrite Hi in Hf; discriminate].
    destruct (SuperCats_nth l i x Hn Hi) as (k & Hk & Hs).
    rewrite Hs. do 3 f_equal.
    pose proof (index_of_first_seen pd_eq pd_eq_refl pd_eq_sym pd_eq_trans
                  l i x Hi Hf) as Hidx.
    congruence.
  - assert (reshape (SuperCats (flatten grid_22)) 2 2 =
            Ok [[Some 0; Some 0]; [Some 1; Some 0]]) as Hr
      by (vm_compute; reflexivity).
    split; [vm_compute; reflexivity|]. split; [exact Hr|].
    intros writes R K A N fs W.
    now rewrite (emit_map_written _ _ _ _ _ _ _ _ _ _ Hr W).
Qed.

Lemma no_nan_grid_22 : no_nan (flatten grid_22).
Proof.
  intros x H. simpl in H.
  repeat (destruct H as [<-|H]; [reflexivity|]). destruct H.
Qed.

Lemma supercats_first_appearance_witness :
  no_nan (flatten grid_22) /\
  nth_error (SuperCats (flatten grid_22)) 2 = Some (Some 1).
Proof.
  split; [exact no_nan_grid_22|].
  exact (proj1 (proj2 (supercats_first_appearance grid_22 no_nan_grid_22))
           2%nat eq_refl).
Defined.

Lemma pd_length_unique l : length (unique pd_eq l) = distinct_count pd_eq l.
Proof. apply length_unique; pd_equiv. Qed.

Lemma pd_length_unique_without c l :
  length (unique pd_eq l) =
  (length (unique pd_eq (without pd_eq c l)) +
   if seen pd_eq c l then 1 else 0)%nat.
Proof. apply length_unique_without; pd_equiv. Qed.

Lemma is_nan_NoData : is_nan NoData = false.
Proof. reflexivity. Qed.

Lemma without_py_pd l : without py_eq NoData l = without pd_eq NoData l.
Proof.
  unfold without. apply filter_ext. intros x.
  now rewrite (py_eq_pd_eq x NoData is_nan_NoData).
Qed.

(** C4: the number of Supercategory IDs is the number of distinct ThetaS
    values of the flattened grid, told apart as [Series.unique] does;
    when -999 is among them it counts for one, next to the distinct
    values of the other cells; a grid of -999 cells only has exactly one
    ID. *)
Theorem supercategory_count (DfVG_ThetaS : list (list float)) :
  let VG_ThetaS := flatten DfVG_ThetaS in
  length (SuperCats_unique VG_ThetaS) = distinct_count pd_eq VG_ThetaS /\
  (In NoData VG_ThetaS ->
   length (SuperCats_unique VG_ThetaS) =
   S (distinct_count pd_eq (without py_eq NoData VG_ThetaS))) /\
  (VG_ThetaS <> [] -> (forall x, In x VG_ThetaS -> x = NoData) ->
   length (SuperCats_unique VG_ThetaS) = 1%nat).
Proof.
  intros l.
  assert (In NoData l ->
          length (SuperCats_unique l) =
          S (distinct_count pd_eq (without py_eq NoData l))) as Hsentinel.
  { intros Hin. rewrite length_SuperCats_unique_any.
    rewrite (pd_length_unique_without NoData l).
    assert (seen pd_eq NoData l = true) as ->.
    { apply existsb_exists. exists NoData. split; [assumption|].
      apply pd_eq_refl. }
    rewrite without_py_pd, pd_length_unique. lia. }
  split; [now rewrite length_SuperCats_unique_any, pd_length_unique|].
  split; [exact Hsentinel|].
  intros Hne Hall.
  assert (In NoData l) as Hin.
  { destruct l as [|x l']; [congruence|].
    rewrite <- (Hall x) at 1 by now left. now left. }
  rewrite (Hsentinel Hin).
  assert (without py_eq NoData l = []) as ->; [|reflexivity].
  unfold without. clear - Hall.
  induction l as [|x l IH]; [reflexivity|]. simpl.
  rewrite (Hall x) by now left.
  change (py_eq NoData NoData) with true. simpl.
  apply IH. intros y Hy. apply Hall. now right.
Qed.

Lemma supercategory_count_witness :
  length (SuperCats_unique (flatten grid_nodata)) = 1%nat.
Proof.
  refine (proj2 (proj2 (supercategory_count grid_nodata)) _ _).
  - discriminate.
  - intros x H. simpl in H.
    repeat (destruct H as [<-|H]; [reflexivity|]). destruct H.
Defined.

(** C2, evaluated on grids of one cell with Ksat = 100 cm/day: the table
    is built, its VG_Ksat column holds 100.0, and the converted series of
    line 120 holds 1.0. *)
Theorem ksat_column_holds_raw_values :
  exists P,
    DfSoilSuperProperties (one_cell 0.4) (one_cell 0.1) (one_cell 100)
      (one_cell 0.02) (one_cell 1.5) = Ok P /\
    csv_column (frame_to_csv P ",") "VG_Ksat" = Some [CFloat 100] /\
    VG_Ksat (one_cell 100) = [1%float].
Proof. eexists. repeat split; vm_compute; reflexivity. Qed.

(** ** The subcategory grid *)

Lemma float64_of_int_small z : 0 < z < 2 ^ 53 -> float64_of_int z = z.
Proof.
  intros [H0 H]. unfold float64_of_int.
  assert (Z.log2 (Z.abs z) + 1 - 53 <= 0) as Hd.
  { rewrite Z.abs_eq by lia.
    assert (Z.log2 z < 53) by (apply Z.log2_lt_pow2; lia). lia. }
  apply Z.leb_le in Hd. now rewrite Hd.
Qed.

Lemma astype_int_small z : 0 <= z < 2 ^ 63 -> astype_int z = z.
Proof.
  intros H. unfold astype_int. rewrite Z.mod_small; lia.
Qed.

Lemma nth_error_seq_lt n i k : (i < k)%nat -> nth_error (seq n k) i = Some (n + i)%nat.
Proof.
  revert n i. induction k as [|k IH]; intros n i H; [lia|].
  destruct i; simpl; [f_equal; lia|].
  rewrite IH by lia. f_equal. lia.
Qed.

Lemma SubCats_bounds Nrows Ncols r c :
  (r < Nrows)%nat -> (c < Ncols)%nat ->
  0 < SubCats Ncols r c <= Z.of_nat Nrows * Z.of_nat Ncols.
Proof.
  intros Hr Hc. unfold SubCats.
  assert (Z.of_nat Ncols * Z.of_nat r <= Z.of_nat Ncols * (Z.of_nat Nrows - 1))
    by (apply Z.mul_le_mono_nonneg_l; lia).
  lia.
Qed.

Lemma SubCats_injective Ncols r c r' c' :
  (c < Ncols)%nat -> (c' < Ncols)%nat ->
  SubCats Ncols r c = SubCats Ncols r' c' -> r = r' /\ c = c'.
Proof.
  unfold SubCats. intros Hc Hc' H.
  assert (Z.of_nat r = Z.of_nat r') by nia.
  split; lia.
Qed.

(** C8: for a grid that fits in memory (fewer than 2^53 cells, so that
    the float64 cells hold the numbers exactly), the frame has [numRows]
    rows of [numCols] cells, cell (r, c) holds 1 + numCols*r + c, and no
    two cells hold the same number. *)
Theorem subcategory_grid (numRows numCols : nat) :
  Z.of_nat numRows * Z.of_nat numCols < 2 ^ 53 ->
  length (DfSubCats numRows numCols) = numRows /\
  (forall row, In row (DfSubCats numRows numCols) -> length row = numCols) /\
  (forall r c, (r < numRows)%nat -> (c < numCols)%nat ->
     cell_at (DfSubCats numRows numCols) r c =
     Some (1 + Z.of_nat numCols * Z.of_nat r + Z.of_nat c)) /\
  (forall r c r' c' id,
     cell_at (DfSubCats numRows numCols) r c = Some id ->
     cell_at (DfSubCats numRows numCols) r' c' = Some id ->
     r = r' /\ c = c').
Proof.
  intros Hfit.
  assert (forall r c, (r < numRows)%nat -> (c < numCols)%nat ->
            cell_at (DfSubCats numRows numCols) r c =
            Some (SubCats numCols r c)) as Hcell.
  { intros r c Hr Hc. unfold cell_at, DfSubCats.
    rewrite nth_error_map, nth_error_seq_lt by assumption. simpl.
    rewrite nth_error_map, nth_error_seq_lt by assumption. simpl.
    pose proof (SubCats_bounds numRows numCols r c Hr Hc).
    rewrite float64_of_int_small, astype_int_small by lia. reflexivity. }
  assert (forall r c id, cell_at (DfSubCats numRows numCols) r c = Some id ->
            (r < numRows)%nat /\ (c < numCols)%nat) as Hin.
  { intros r c id H. unfold cell_at, DfSubCats in H.
    rewrite nth_error_map in H.
    destruct (nth_error (seq 0 numRows) r) as [r0|] eqn:Er; [|discriminate].
    simpl in H. rewrite nth_error_map in H.
    destruct (nth_error (seq 0 numCols) c) as [c0|] eqn:Ec; [|discriminate].
    assert (r < length (seq 0 numRows))%nat as Hr
      by (apply nth_error_Some; congruence).
    assert (c < length (seq 0 numCols))%nat as Hc
      by (apply nth_error_Some; congruence).
    rewrite length_seq in Hr, Hc. auto. }
  split; [unfold DfSubCats; now rewrite length_map, length_seq|].
  split.
  { intros row Hrow. unfold DfSubCats in Hrow. apply in_map_iff in Hrow.
    destruct Hrow as (r & <- & _). now rewrite length_map, length_seq. }
  split; [exact Hcell|].
  intros r c r' c' id H1 H2.
  destruct (Hin _ _ _ H1) as [Hr Hc]. destruct (Hin _ _ _ H2) as [Hr' Hc'].
  rewrite Hcell in H1, H2 by assumption.
  apply (SubCats_injective numCols); [assumption..|congruence].
Qed.

Lemma subcategory_grid_witness :
  Z.of_nat 2 * Z.of_nat 3 < 2 ^ 53 /\
  cell_at (DfSubCats 2 3) 1 2 = Some 6.
Proof.
  assert (Z.of_nat 2 * Z.of_nat 3 < 2 ^ 53) as H by reflexivity.
  split; [exact H|].
  apply (proj1 (proj2 (proj2 (subcategory_grid 2 3 H))) 1%nat 2%nat); lia.
Defined.

(** ** The soil-detail table *)

Lemma details_csv ids :
  frame_to_csv (details_frame ids) "," =
  {| sep := ","; header := Some details_header;
     rows := map details_row ids |}.
Proof.
  unfold frame_to_csv, details_frame. simpl. f_equal.
  transitivity
    (map details_row (map (fun i => nth i ids CNaN) (seq 0 (length ids))));
    [|now rewrite map_nth_seq_all].
  rewrite map_map.
  apply map_ext_in. intros i Hi. apply in_seq in Hi.
  unfold frame_row, details_row. simpl.
  rewrite !nth_repeat_lt by lia. reflexivity.
Qed.

(** C9: after a successful run the Soil Details file is comma-delimited,
    its header line is
    [<SoilDetails>,SuperCats,SoilLayer,SoilType,Depth[m],</SoilDetails>],
    it has one row per Supercategory ID, and every row reads
    [<SoilDetail>], the ID, 1, the ID again, 2.0, [</SoilDetail>]. *)
Theorem soil_details_file (writes : string -> write_end) (Nrows Ncols : nat)
    (DfVG_ThetaS DfVG_ThetaR DfVG_Ksat DfVG_Alpha DfVG_N : list (list float))
    (fs fs' : filesystem) :
  emit writes Nrows Ncols DfVG_ThetaS DfVG_ThetaR DfVG_Ksat DfVG_Alpha DfVG_N fs
    = (fs', Ok tt) ->
  exists D,
    fs' !! SoilDetailsPath = Some D /\
    sep D = "," /\
    header D = Some details_header /\
    csv_line (sep D) details_header =
      "<SoilDetails>,SuperCats,SoilLayer,SoilType,Depth[m],</SoilDetails>" /\
    rows D = map details_row (SuperCats_column DfVG_ThetaS) /\
    (forall row, In row (rows D) ->
       exists id,
         row = [CStr "<SoilDetail>"; id; CInt 1; id; CFloat 2.0;
                CStr "</SoilDetail>"]).
Proof.
  intros H. destruct (emit_Ok_inv _ _ _ _ _ _ _ _ _ _ H) as (G & P & HG & HP & W1 & W2 & W3).
  rewrite (emit_succeeds _ _ _ _ _ _ _ _ _ _ P HG HP W1 W2 W3) in H.
  injection H as <-.
  rewrite DfSuperDetails_frame, details_csv.
  eexists. split; [apply lookup_insert_eq|]. simpl.
  repeat split.
  intros row Hrow. apply in_map_iff in Hrow.
  destruct Hrow as (id & <- & _). now exists id.
Qed.

Lemma emit_grid_22 :
  exists fs',
    emit every_path 2 2 grid_22 grid_22 grid_22 grid_22 grid_22 ∅ = (fs', Ok tt).
Proof. eexists. vm_compute. reflexivity. Defined.

Lemma soil_details_file_witness :
  exists fs' D,
    emit every_path 2 2 grid_22 grid_22 grid_22 grid_22 grid_22 ∅ = (fs', Ok tt) /\
    fs' !! SoilDetailsPath = Some D /\
    rows D = map details_row (SuperCats_column grid_22).
Proof.
  destruct emit_grid_22 as [fs' H]. exists fs'.
  destruct (soil_details_file every_path 2 2 grid_22 grid_22 grid_22 grid_22 grid_22
              ∅ fs' H) as (D & HD & _ & _ & _ & Hrows & _).
  exists D. auto.
Defined.

(** ** Arrays of unique values that differ in length *)

Lemma unique_nonempty {A} (eqb : A -> A -> bool) l :
  l <> [] -> unique eqb l <> [].
Proof.
  destruct l as [|x l]; [congruence|]. intros _.
  unfold unique. rewrite unique_from_cons. simpl.
  destruct (unique_from_extends eqb [x] l) as [s ->]. discriminate.
Qed.

Lemma SuperCats_column_nonempty Df :
  flatten Df <> [] -> SuperCats_column Df <> [].
Proof.
  intros H E. apply (f_equal (@length cell)) in E.
  rewrite length_SuperCats_column in E. unfold VG_Super in E.
  rewrite length_map in E. apply (unique_nonempty pd_eq) in H.
  destruct (unique pd_eq (flatten Df)); [congruence|discriminate].
Qed.

Lemma length_SuperCats l : length (SuperCats l) = length l.
Proof. apply length_map. Qed.




(** ** The IDs across the three files *)

Lemma id_eq_refl a : id_eq a a = true.
Proof. now apply bool_decide_eq_true. Qed.

Lemma id_eq_sym a b : id_eq a b = id_eq b a.
Proof. unfold id_eq. apply bool_decide_ext. split; congruence. Qed.

Lemma id_eq_trans a b c : id_eq a b = true -> id_eq b c = true -> id_eq a c = true.
Proof.
  unfold id_eq. rewrite !bool_decide_eq_true. congruence.
Qed.


Section CountMap.
Context {A B : Type} (eqa : A -> A -> bool) (eqb : B -> B -> bool) (f : A -> B).
Hypothesis compat : forall x y, eqb (f x) (f y) = eqa x y.



End CountMap.





(** On a grid of numbers the ID column is 0, 1, ..., k-1. *)
Lemma SuperCats_column_first_ids Df :
  no_nan (flatten Df) ->
  SuperCats_column Df = map CInt (first_ids (length (SuperCats_column Df))).
Proof.
  intros Hn. rewrite length_SuperCats_column. unfold VG_Super.
  rewrite length_map.
  unfold SuperCats_column, SuperCats_cells, first_ids.
  rewrite as_float64_no_nan, SuperCats_unique_enumerate by assumption.
  now rewrite !map_map.
Qed.

Lemma SuperCats_in_column l s :
  In s (SuperCats l) -> In s (SuperCats_unique l).
Proof.
  intros H. unfold SuperCats_unique.
  assert (seen id_eq s (unique id_eq (SuperCats l)) = true) as Hs.
  { rewrite seen_unique by (first [exact id_eq_sym | exact id_eq_trans]).
    apply existsb_exists. exists s. split; [assumption|apply id_eq_refl]. }
  apply existsb_exists in Hs. destruct Hs as (y & Hy & E).
  apply bool_decide_eq_true in E. now subst y.
Qed.




Lemma reshape_Ok_inv {A} (l : list A) Nrows Ncols G :
  reshape l Nrows Ncols = Ok G ->
  length l = (Nrows * Ncols)%nat /\ G = chunks Nrows Ncols l.
Proof.
  unfold reshape. destruct (Nat.eqb_spec (length l) (Nrows * Ncols));
    [|discriminate].
  intros [= <-]. auto.
Qed.

Lemma DfSoilSuperProperties_Ok_inv S R K A N P :
  flatten S <> [] -> DfSoilSuperProperties S R K A N = Ok P ->
  P = properties_frame (SuperCats_column S) (VG_Super S) (VG_Super R)
        (VG_Super K) (VG_Super A) (VG_Super N).
Proof.
  intros Hne H.
  rewrite DfSoilSuperProperties_cases in H
    by now apply SuperCats_column_nonempty.
  destruct (_ && _)%bool in H; [|discriminate]. now injection H as <-.
Qed.





(** ** Runs of the whole script *)

Lemma bind_lift {A B} (r : result A) (k : A -> M B) fs :
  bind (lift r) k fs =
  match r with
  | Ok a => k a fs
  | Raise e => (fs, Raise e)
  end.
Proof. unfold bind, lift. now destruct r. Qed.


Section RunFacts.
Variable readlines : string -> list string.
Variable ASCtoDfParam : string -> Z -> Z -> result (list (list float)).
Variable allocates : nat -> nat -> bool.
Variable writes : string -> write_end.

Local Abbreviation run := (Script.run readlines ASCtoDfParam allocates writes).
Local Abbreviation load := (Script.load ASCtoDfParam).



Lemma load_Ok_lt PathList i Nrows Ncols G :
  load PathList i Nrows Ncols = Ok G -> (i < length PathList)%nat.
Proof.
  unfold Script.load, getitem. intros H. apply nth_error_Some.
  destruct (nth_error PathList i); [congruence|discriminate].
Qed.

Lemma load_missing PathList i Nrows Ncols :
  (length PathList <= i)%nat ->
  load PathList i Nrows Ncols = Raise IndexError.
Proof.
  intros H. unfold Script.load, getitem.
  apply nth_error_None in H. now rewrite H.
Qed.

Lemma load_present PathList i Nrows Ncols :
  (forall path r c, In path PathList -> exists G, ASCtoDfParam path r c = Ok G) ->
  (i < length PathList)%nat ->
  exists G, load PathList i Nrows Ncols = Ok G.
Proof.
  intros Hall Hi. unfold Script.load, getitem.
  destruct (nth_error PathList i) as [path|] eqn:E.
  - simpl. apply Hall. eapply nth_error_In; eauto.
  - apply nth_error_None in E. lia.
Qed.

(** A load raises IndexError when it is the path that is missing. *)
Lemma load_raises PathList i Nrows Ncols e :
  (forall path r c, In path PathList -> exists G, ASCtoDfParam path r c = Ok G) ->
  load PathList i Nrows Ncols = Raise e -> e = IndexError.
Proof.
  intros Hall H.
  destruct (Nat.lt_ge_cases i (length PathList)) as [Hi|Hi].
  - destruct (load_present PathList i Nrows Ncols Hall Hi) as [G HG].
    congruence.
  - rewrite load_missing in H by assumption. congruence.
Qed.

End RunFacts.

Lemma getitem_Raise {A} (l : list A) i e :
  getitem l i = Raise e -> e = IndexError /\ (length l <= i)%nat.
Proof.
  unfold getitem. destruct (nth_error l i) eqn:E; [discriminate|].
  intros [= <-]. split; [reflexivity|]. now apply nth_error_None.
Qed.

Lemma getitem_Ok {A} (l : list A) i a :
  getitem l i = Ok a -> nth_error l i = Some a.
Proof. unfold getitem. destruct (nth_error l i); congruence. Qed.

(** C7 as the script has it: with fewer than five files found the run
    raises and writes nothing; the exception is IndexError when no file
    was found, and also when the header is read and the files that were
    found load (the first missing [PathList[i]] raises it). *)
Theorem too_few_files
    (readlines : string -> list string)
    (ASCtoDfParam : string -> Z -> Z -> result (list (list float)))
    (allocates : nat -> nat -> bool) (writes : string -> write_end)
    (PathList : list string) (fs : filesystem) :
  (length PathList < 5)%nat ->
  exists e,
    run readlines ASCtoDfParam allocates writes PathList fs = (fs, Raise e) /\
    (PathList = [] -> e = IndexError) /\
    (metadata_read readlines allocates PathList -> files_load ASCtoDfParam PathList ->
     e = IndexError).
Proof.
  intros Hlen. unfold run. rewrite bind_lift.
  destruct (getitem PathList 0) as [path|e] eqn:Hpath.
  2:{ exists e. apply getitem_Raise in Hpath. destruct Hpath as [-> _]. auto. }
  apply getitem_Ok in Hpath.
  assert (PathList <> []) as Hne by (intros ->; discriminate).
  rewrite bind_lift.
  destruct (Metadata.scan_lines (readlines path) None None)
    as [found|e] eqn:Hscan.
  2:{ exists e. repeat split; [congruence|].
      intros Hmeta _. destruct (Hmeta path Hpath) as (f & s & Hf & _).
      congruence. }
  rewrite bind_lift.
  destruct (Metadata.np_zeros_shape allocates (snd found) (fst found))
    as [shape|e] eqn:Hshape.
  2:{ exists e. repeat split; [congruence|].
      intros Hmeta _. destruct (Hmeta path Hpath) as (f & s & Hf & Hs).
      congruence. }
  cbv zeta.
  rewrite bind_lift.
  destruct (load ASCtoDfParam PathList 0 (fst shape) (snd shape))
    as [G0|e] eqn:H0.
  2:{ exists e. repeat split; [congruence|]. intros _ Hall.
      eapply load_raises; eauto. }
  rewrite bind_lift.
  destruct (load ASCtoDfParam PathList 1 (fst shape) (snd shape))
    as [G1|e] eqn:H1.
  2:{ exists e. repeat split; [congruence|]. intros _ Hall.
      eapply load_raises; eauto. }
  rewrite bind_lift.
  destruct (load ASCtoDfParam PathList 2 (fst shape) (snd shape))
    as [G2|e] eqn:H2.
  2:{ exists e. repeat split; [congruence|]. intros _ Hall.
      eapply load_raises; eauto. }
  rewrite bind_lift.
  destruct (load ASCtoDfParam PathList 3 (fst shape) (snd shape))
    as [G3|e] eqn:H3.
  2:{ exists e. repeat split; [congruence|]. intros _ Hall.
      eapply load_raises; eauto. }
  rewrite bind_lift.
  destruct (load ASCtoDfParam PathList 4 (fst shape) (snd shape))
    as [G4|e] eqn:H4.
  2:{ exists e. repeat split; [congruence|]. intros _ Hall.
      eapply load_raises; eauto. }
  apply load_Ok_lt in H4. lia.
Qed.

Lemma too_few_files_witness :
  (length four_files < 5)%nat /\
  run header_1x2 load_row any_shape every_path four_files ∅ = (∅, Raise IndexError).
Proof.
  assert (length four_files < 5)%nat as H by (simpl; lia).
  split; [exact H|].
  destruct (too_few_files header_1x2 load_row any_shape every_path
              four_files ∅ H)
    as (e & Hrun & _ & He).
  rewrite Hrun. f_equal. f_equal. apply He.
  - intros path Hp. injection Hp as <-.
    eexists _, _. split; vm_compute; reflexivity.
  - intros path r c _. unfold load_row.
    destruct (String.eqb path "5km_2_ThetaR.asc"); eauto.
Defined.

(** C7 as stated fails: with no file found the run raises IndexError, not
    ConfigurationError. *)
Lemma too_few_files_not_ConfigurationError :
  ~ (forall (readlines : string -> list string)
            (ASCtoDfParam : string -> Z -> Z -> result (list (list float)))
            (allocates : nat -> nat -> bool) (writes : string -> write_end)
            (PathList : list string) (fs : filesystem),
       (length PathList < 5)%nat ->
       snd (run readlines ASCtoDfParam allocates writes PathList fs)
       = Raise "ConfigurationError").
Proof.
  intros H.
  specialize (H header_1x2 load_row any_shape every_path [] ∅
                ltac:(simpl; lia)).
  vm_compute in H. discriminate.
Qed.

(** ** What a failed run leaves behind *)



(** A run whose last write breaks off leaves the map, the Soil Properties
    table and the first line of the Soil Details table. *)
Lemma broken_write_leaves_files :
  exists fs',
    run header_1x2 (fun _ _ _ => Ok row_same) any_shape details_cut
      five_files ∅ = (fs', Raise OSError) /\
    fs' !! SuperCatsPath = Some (map_to_csv [[Some 0; Some 0]]) /\
    is_Some (fs' !! SoilPropertiesPath) /\
    fs' !! SoilDetailsPath =
      Some {| sep := ","; header := Some details_header; rows := [] |}.
Proof.
  eexists. split; [vm_compute; reflexivity|].
  split; [vm_compute; reflexivity|].
  split; vm_compute; eauto.
Qed.



(** * Part IV: further properties of the script *)

(** ** The map file (lines 139-150) *)

Lemma length_chunks {A} (l : list A) n w : length (chunks n w l) = n.
Proof. revert l. induction n as [|n IH]; intros l; simpl; auto. Qed.

Lemma nth_error_chunks {A} (l : list A) n w r :
  (r < n)%nat ->
  nth_error (chunks n w l) r = Some (firstn w (skipn (r * w) l)).
Proof.
  revert l r. induction n as [|n IH]; intros l r Hr; [lia|].
  destruct r as [|r]; simpl; [reflexivity|].
  rewrite IH by lia. rewrite skipn_skipn. do 3 f_equal. lia.
Qed.

Lemma cell_at_chunks {A} (l : list A) n w r c :
  (r < n)%nat -> (c < w)%nat ->
  cell_at (chunks n w l) r c = nth_error l (r * w + c).
Proof.
  intros Hr Hc. unfold cell_at. rewrite nth_error_chunks by assumption.
  rewrite nth_error_firstn, nth_error_skipn.
  destruct (Nat.ltb_spec c w); [reflexivity|lia].
Qed.

Lemma chunks_row_length {A} (l : list A) n w row :
  length l = (n * w)%nat -> In row (chunks n w l) -> length row = w.
Proof.
  revert l. induction n as [|n IH]; intros l Hl Hin; [destruct Hin|].
  simpl in Hin. destruct Hin as [<-|Hin].
  - rewrite length_firstn. simpl in Hl. lia.
  - apply (IH (skipn w l)); [|assumption].
    rewrite length_skipn. simpl in Hl. lia.
Qed.

Lemma cell_at_map {A B} (f : A -> B) G r c :
  cell_at (map (map f) G) r c = option_map f (cell_at G r c).
Proof.
  unfold cell_at. rewrite nth_error_map.
  destruct (nth_error G r) as [row|]; simpl; [|reflexivity].
  apply nth_error_map.
Qed.

(** X1: when the ThetaS grid has Nrows*Ncols cells and the write of the
    map ends well, the map file is in the directory however the run goes
    on, blank-separated and without header, with Nrows rows of Ncols
    cells, and the cell at (r, c) is the ID of the cell r*Ncols + c of
    the flattened grid, in the dtype of the ID series: an integer on a
    grid of numbers. *)
Theorem map_file_row_major (writes : string -> write_end) (Nrows Ncols : nat)
    (DfVG_ThetaS DfVG_ThetaR DfVG_Ksat DfVG_Alpha DfVG_N : list (list float))
    (fs : filesystem) :
  length (flatten DfVG_ThetaS) = (Nrows * Ncols)%nat ->
  writes SuperCatsPath = Written ->
  exists M,
    fst (emit writes Nrows Ncols DfVG_ThetaS DfVG_ThetaR DfVG_Ksat DfVG_Alpha
           DfVG_N fs) !! SuperCatsPath = Some M /\
    sep M = " " /\ header M = None /\
    length (rows M) = Nrows /\
    (forall row, In row (rows M) -> length row = Ncols) /\
    (forall r c, (r < Nrows)%nat -> (c < Ncols)%nat ->
       cell_at (rows M) r c =
       option_map (id_cell (as_float64 (SuperCats (flatten DfVG_ThetaS))))
         (nth_error (SuperCats (flatten DfVG_ThetaS)) (r * Ncols + c))) /\
    (no_nan (flatten DfVG_ThetaS) ->
     forall r c, (r < Nrows)%nat -> (c < Ncols)%nat ->
       exists id,
         nth_error (SuperCats (flatten DfVG_ThetaS)) (r * Ncols + c)
           = Some (Some id) /\
         cell_at (rows M) r c = Some (CInt id)).
Proof.
  intros Hlen W.
  assert (length (SuperCats (flatten DfVG_ThetaS)) = (Nrows * Ncols)%nat)
    as Hids by now rewrite length_SuperCats.
  assert (reshape (SuperCats (flatten DfVG_ThetaS)) Nrows Ncols =
          Ok (chunks Nrows Ncols (SuperCats (flatten DfVG_ThetaS)))) as HG
    by (unfold reshape; now rewrite Hids, Nat.eqb_refl).
  assert (forall r c, (r < Nrows)%nat -> (c < Ncols)%nat ->
            cell_at
              (rows (map_to_csv
                 (chunks Nrows Ncols (SuperCats (flatten DfVG_ThetaS))))) r c =
            option_map (id_cell (as_float64 (SuperCats (flatten DfVG_ThetaS))))
              (nth_error (SuperCats (flatten DfVG_ThetaS)) (r * Ncols + c)))
    as Hcell.
  { intros r c Hr Hc. simpl. rewrite cell_at_map.
    rewrite concat_chunks by assumption. f_equal.
    now apply cell_at_chunks. }
  eexists. split; [apply (emit_map_written _ _ _ _ _ _ _ _ _ _ HG W)|].
  split; [reflexivity|]. split; [reflexivity|].
  split; [simpl; now rewrite length_map, length_chunks|].
  split; [|split; [exact Hcell|]].
  - intros row Hrow. simpl in Hrow. apply in_map_iff in Hrow.
    destruct Hrow as (ids & <- & Hin). rewrite length_map.
    eapply chunks_row_length; eauto.
  - intros Hn r c Hr Hc. rewrite Hcell by assumption.
    rewrite as_float64_no_nan by assumption.
    assert (r * Ncols + c < length (flatten DfVG_ThetaS))%nat as Hlt by nia.
    apply nth_error_Some in Hlt.
    destruct (nth_error (flatten DfVG_ThetaS) (r * Ncols + c)) as [x|] eqn:Hx;
      [|congruence].
    destruct (SuperCats_nth _ _ _ Hn Hx) as (k & _ & Hk).
    exists (Z.of_nat k). rewrite Hk. auto.
Qed.

Lemma map_file_row_major_witness :
  exists M,
    fst (emit every_path 2 2 grid_22 grid_22 grid_22 grid_22 grid_22 ∅) !! SuperCatsPath
      = Some M /\
    cell_at (rows M) 1 0 = Some (CInt 1).
Proof.
  destruct (map_file_row_major every_path 2 2 grid_22 grid_22 grid_22 grid_22 grid_22 ∅
              eq_refl eq_refl) as (M & HM & _ & _ & _ & _ & Hcell & _).
  exists M. split; [exact HM|].
  rewrite (Hcell 1%nat 0%nat) by lia. reflexivity.
Defined.

(** X2: when the ThetaS grid does not have Nrows*Ncols cells, the run of
    lines 116-202 raises ValueError at the reshape and writes no file at
    all. *)
Theorem wrong_cell_count_writes_nothing (writes : string -> write_end) (Nrows Ncols : nat)
    (DfVG_ThetaS DfVG_ThetaR DfVG_Ksat DfVG_Alpha DfVG_N : list (list float))
    (fs : filesystem) :
  length (flatten DfVG_ThetaS) <> (Nrows * Ncols)%nat ->
  emit writes Nrows Ncols DfVG_ThetaS DfVG_ThetaR DfVG_Ksat DfVG_Alpha DfVG_N fs
  = (fs, Raise ValueError).
Proof.
  intros Hne. apply emit_reshape_raises. unfold reshape.
  rewrite length_SuperCats. apply Nat.eqb_neq in Hne. now rewrite Hne.
Qed.

Lemma wrong_cell_count_writes_nothing_witness :
  emit every_path 3 3 grid_22 grid_22 grid_22 grid_22 grid_22 ∅ = (∅, Raise ValueError).
Proof.
  apply wrong_cell_count_writes_nothing. simpl. lia.
Defined.

(** ** The soil-property table (lines 156-182) *)

Lemma length_VG_Super Df :
  length (VG_Super Df) = length (unique pd_eq (flatten Df)).
Proof. unfold VG_Super. apply length_map. Qed.

Lemma DfSoilSuperProperties_Ok_lengths S R K A N P :
  flatten S <> [] -> DfSoilSuperProperties S R K A N = Ok P ->
  distinct_values R = distinct_values S /\
  distinct_values K = distinct_values S /\
  distinct_values A = distinct_values S /\
  distinct_values N = distinct_values S.
Proof.
  intros Hne H.
  rewrite DfSoilSuperProperties_cases in H
    by now apply SuperCats_column_nonempty.
  rewrite length_SuperCats_column in H. unfold VG_Super in H.
  rewrite !length_map in H. unfold distinct_values.
  destruct (Nat.eqb_spec (length (unique pd_eq (flatten R)))
              (length (unique pd_eq (flatten S)))); [|discriminate].
  destruct (Nat.eqb_spec (length (unique pd_eq (flatten K)))
              (length (unique pd_eq (flatten S)))); [|discriminate].
  destruct (Nat.eqb_spec (length (unique pd_eq (flatten A)))
              (length (unique pd_eq (flatten S)))); [|discriminate].
  destruct (Nat.eqb_spec (length (unique pd_eq (flatten N)))
              (length (unique pd_eq (flatten S)))); [|discriminate].
  auto.
Qed.

Lemma DfSoilSuperProperties_Ok_intro S R K A N :
  flatten S <> [] ->
  distinct_values R = distinct_values S ->
  distinct_values K = distinct_values S ->
  distinct_values A = distinct_values S ->
  distinct_values N = distinct_values S ->
  exists P, DfSoilSuperProperties S R K A N = Ok P.
Proof.
  unfold distinct_values. intros Hne HR HK HA HN.
  rewrite DfSoilSuperProperties_cases
    by now apply SuperCats_column_nonempty.
  rewrite length_SuperCats_column, !length_VG_Super.
  rewrite HR, HK, HA, HN, Nat.eqb_refl. simpl. eauto.
Qed.

Lemma nth_VG_Super Df i x :
  nth_error (unique pd_eq (flatten Df)) i = Some x ->
  nth i (VG_Super Df) CNaN = CFloat x.
Proof.
  intros H. unfold VG_Super.
  apply nth_error_nth. now rewrite nth_error_map, H.
Qed.

Lemma nth_error_lt_Some {A} (l : list A) i :
  (i < length l)%nat -> exists x, nth_error l i = Some x.
Proof.
  intros H. destruct (nth_error l i) eqn:E; [eauto|].
  apply nth_error_None in E. lia.
Qed.

(** X3: after a successful run on a grid of numbers with at least one
    cell, the Soil Properties file is comma-separated under the nine
    column names, and its row i holds the ID i twice and, for each of the
    five grids as loaded, the i-th of its unique values in first-seen
    order. *)
Theorem soil_properties_file (writes : string -> write_end) (Nrows Ncols : nat)
    (DfVG_ThetaS DfVG_ThetaR DfVG_Ksat DfVG_Alpha DfVG_N : list (list float))
    (fs fs' : filesystem) :
  flatten DfVG_ThetaS <> [] ->
  no_nan (flatten DfVG_ThetaS) ->
  emit writes Nrows Ncols DfVG_ThetaS DfVG_ThetaR DfVG_Ksat DfVG_Alpha DfVG_N fs
    = (fs', Ok tt) ->
  exists P,
    fs' !! SoilPropertiesPath = Some P /\
    sep P = "," /\
    header P = Some properties_header /\
    length (rows P) = distinct_values DfVG_ThetaS /\
    (forall i, (i < distinct_values DfVG_ThetaS)%nat ->
       exists thetaS thetaR ksat alpha n,
         nth_error (unique pd_eq (flatten DfVG_ThetaS)) i = Some thetaS /\
         nth_error (unique pd_eq (flatten DfVG_ThetaR)) i = Some thetaR /\
         nth_error (unique pd_eq (flatten DfVG_Ksat)) i = Some ksat /\
         nth_error (unique pd_eq (flatten DfVG_Alpha)) i = Some alpha /\
         nth_error (unique pd_eq (flatten DfVG_N)) i = Some n /\
         nth_error (rows P) i =
         Some (properties_row i thetaS thetaR ksat alpha n)).
Proof.
  intros Hne Hn H.
  destruct (emit_Ok_inv _ _ _ _ _ _ _ _ _ _ H) as (G & P & HG & HP & W1 & W2 & W3).
  rewrite (emit_succeeds _ _ _ _ _ _ _ _ _ _ P HG HP W1 W2 W3) in H.
  injection H as <-.
  destruct (DfSoilSuperProperties_Ok_lengths _ _ _ _ _ _ Hne HP)
    as (HR & HK & HA & HN).
  apply DfSoilSuperProperties_Ok_inv in HP; [|assumption]. subst P.
  destruct paths_differ as (H1 & H2 & H3).
  assert (length (SuperCats_column DfVG_ThetaS) = distinct_values DfVG_ThetaS)
    as Hk.
  { rewrite length_SuperCats_column. unfold VG_Super, distinct_values.
    now rewrite length_map. }
  eexists. split; [now rewrite lookup_insert_ne, lookup_insert_eq by auto|].
  simpl. rewrite length_map, length_seq, Hk.
  repeat split.
  intros i Hi. unfold distinct_values in *.
  destruct (nth_error_lt_Some (unique pd_eq (flatten DfVG_ThetaS)) i)
    as [s Hs]; [assumption|].
  destruct (nth_error_lt_Some (unique pd_eq (flatten DfVG_ThetaR)) i)
    as [r Hr]; [lia|].
  destruct (nth_error_lt_Some (unique pd_eq (flatten DfVG_Ksat)) i)
    as [k Hks]; [lia|].
  destruct (nth_error_lt_Some (unique pd_eq (flatten DfVG_Alpha)) i)
    as [a Ha]; [lia|].
  destruct (nth_error_lt_Some (unique pd_eq (flatten DfVG_N)) i)
    as [n Hnn]; [lia|].
  exists s, r, k, a, n. repeat split; try assumption.
  rewrite nth_error_map, nth_error_seq_lt by assumption. simpl.
  unfold frame_row, properties_row. simpl.
  rewrite !nth_repeat_lt by lia.
  rewrite (nth_VG_Super _ _ _ Hs), (nth_VG_Super _ _ _ Hr),
    (nth_VG_Super _ _ _ Hks), (nth_VG_Super _ _ _ Ha),
    (nth_VG_Super _ _ _ Hnn).
  rewrite (SuperCats_column_first_ids _ Hn), Hk. unfold first_ids.
  rewrite map_map.
  assert (nth i (map (fun x => CInt (Z.of_nat x))
                   (seq 0 (length (unique pd_eq (flatten DfVG_ThetaS)))))
              CNaN = CInt (Z.of_nat i)) as ->; [|reflexivity].
  apply nth_error_nth. now rewrite nth_error_map, nth_error_seq_lt.
Qed.

Lemma soil_properties_file_witness :
  exists fs' P,
    emit every_path 2 2 grid_22 grid_22 grid_22 grid_22 grid_22 ∅ = (fs', Ok tt) /\
    fs' !! SoilPropertiesPath = Some P /\
    length (rows P) = 2%nat.
Proof.
  destruct emit_grid_22 as [fs' H]. exists fs'.
  assert (flatten grid_22 <> []) as H2 by discriminate.
  destruct (soil_properties_file every_path 2 2 grid_22 grid_22 grid_22 grid_22 grid_22
              ∅ fs' H2 no_nan_grid_22 H) as (P & HP & _ & _ & Hlen & _).
  exists P. auto.
Defined.

(** X4: on a ThetaS grid with at least one cell, lines 116-202 run to
    the end exactly when the grid has Nrows*Ncols cells, each of the
    four other grids has as many unique values as ThetaS, and each of the
    three writes ends well. *)
Theorem emit_succeeds_iff (writes : string -> write_end) (Nrows Ncols : nat)
    (DfVG_ThetaS DfVG_ThetaR DfVG_Ksat DfVG_Alpha DfVG_N : list (list float))
    (fs : filesystem) :
  flatten DfVG_ThetaS <> [] ->
  snd (emit writes Nrows Ncols DfVG_ThetaS DfVG_ThetaR DfVG_Ksat DfVG_Alpha DfVG_N
         fs) = Ok tt <->
  length (flatten DfVG_ThetaS) = (Nrows * Ncols)%nat /\
  distinct_values DfVG_ThetaR = distinct_values DfVG_ThetaS /\
  distinct_values DfVG_Ksat = distinct_values DfVG_ThetaS /\
  distinct_values DfVG_Alpha = distinct_values DfVG_ThetaS /\
  distinct_values DfVG_N = distinct_values DfVG_ThetaS /\
  writes SuperCatsPath = Written /\
  writes SoilPropertiesPath = Written /\
  writes SoilDetailsPath = Written.
Proof.
  intros Hne. split.
  - intros H.
    destruct (emit writes Nrows Ncols DfVG_ThetaS DfVG_ThetaR DfVG_Ksat DfVG_Alpha
                DfVG_N fs) as [fs' r] eqn:E.
    simpl in H. subst r.
    destruct (emit_Ok_inv _ _ _ _ _ _ _ _ _ _ E) as (G & P & HG & HP & W1 & W2 & W3).
    apply reshape_Ok_inv in HG. destruct HG as [Hlen _].
    rewrite length_SuperCats in Hlen. split; [assumption|].
    destruct (DfSoilSuperProperties_Ok_lengths _ _ _ _ _ _ Hne HP)
      as (HR & HK & HA & HN).
    auto 10.
  - intros (Hlen & HR & HK & HA & HN & W1 & W2 & W3).
    destruct (DfSoilSuperProperties_Ok_intro _ _ _ _ _ Hne HR HK HA HN)
      as [P HP].
    assert (reshape (SuperCats (flatten DfVG_ThetaS)) Nrows Ncols =
            Ok (chunks Nrows Ncols (SuperCats (flatten DfVG_ThetaS)))) as HG
      by (unfold reshape; now rewrite length_SuperCats, Hlen, Nat.eqb_refl).
    now rewrite (emit_succeeds _ _ _ _ _ _ _ _ _ _ P HG HP W1 W2 W3).
Qed.

Lemma emit_succeeds_iff_witness :
  snd (emit every_path 2 2 grid_22 grid_22 grid_22 grid_22 grid_22 ∅) = Ok tt.
Proof.
  assert (flatten grid_22 <> []) as H by discriminate.
  apply (emit_succeeds_iff every_path 2 2 grid_22 grid_22 grid_22 grid_22 grid_22 ∅ H).
  repeat split.
Defined.

(** ** The script and the output directory *)

(** The three writes only insert at the three output paths. *)
Lemma emit_state writes Nrows Ncols S R K A N fs :
  let after := fst (emit writes Nrows Ncols S R K A N fs) in
  after = fs \/
  (exists m, after = <[SuperCatsPath := m]> fs) \/
  (exists m p,
     after = <[SoilPropertiesPath := p]> (<[SuperCatsPath := m]> fs)) \/
  (exists m p d,
     after = <[SoilDetailsPath := d]>
               (<[SoilPropertiesPath := p]> (<[SuperCatsPath := m]> fs))).
Proof.
  rewrite emit_unfold.
  destruct (reshape (SuperCats (flatten S)) Nrows Ncols) as [G|e];
    [|simpl; auto].
  destruct (writes SuperCatsPath); cbv zeta; [|simpl; auto|simpl; eauto].
  destruct (DfSoilSuperProperties S R K A N) as [P|e]; [|simpl; eauto].
  destruct (writes SoilPropertiesPath); [|simpl; eauto|simpl; eauto 6].
  destruct (writes SoilDetailsPath); simpl; eauto 10.
Qed.

(** What is written and raised does not depend on what the directory
    held: a second run on the directory left by the first changes
    nothing. *)
Lemma emit_again writes Nrows Ncols S R K A N fs :
  emit writes Nrows Ncols S R K A N (fst (emit writes Nrows Ncols S R K A N fs)) =
  emit writes Nrows Ncols S R K A N fs.
Proof.
  rewrite !emit_unfold.
  destruct (reshape (SuperCats (flatten S)) Nrows Ncols) as [G|e];
    [|reflexivity].
  assert (forall (m1 m2 : filesystem) (r : result unit),
            (forall i, m1 !! i = m2 !! i) -> (m1, r) = (m2, r)) as Hext
    by (intros m1 m2 r H; f_equal; now apply map_eq).
  destruct (writes SuperCatsPath); cbv zeta; cbn [fst];
    [|reflexivity
     |apply Hext; intros i; rewrite !lookup_insert;
      repeat case_decide; reflexivity].
  destruct (DfSoilSuperProperties S R K A N) as [P|e]; cbn [fst];
    [|apply Hext; intros i; rewrite !lookup_insert;
      repeat case_decide; reflexivity].
  destruct (writes SoilPropertiesPath), (writes SoilDetailsPath); cbn [fst];
    apply Hext; intros i; rewrite !lookup_insert;
    repeat case_decide; reflexivity.
Qed.

Section RunDirectory.
Variable readlines : string -> list string.
Variable ASCtoDfParam : string -> Z -> Z -> result (list (list float)).
Variable allocates : nat -> nat -> bool.
Variable writes : string -> write_end.

(** Before its first write a run reads only the input files: it either
    raises whatever the directory holds, or hands the same grids to
    lines 116-202. *)
Lemma run_factor PathList :
  (exists e, forall fs,
     run readlines ASCtoDfParam allocates writes PathList fs = (fs, Raise e)) \/
  (exists Nrows Ncols S R K A N, forall fs,
     run readlines ASCtoDfParam allocates writes PathList fs = emit writes Nrows Ncols S R K A N fs).
Proof.
  unfold run.
  destruct (getitem PathList 0) as [path|e] eqn:H0;
    [|left; exists e; intros fs; now rewrite bind_lift].
  destruct (Metadata.scan_lines (readlines path) None None)
    as [found|e] eqn:H1;
    [|left; exists e; intros fs; now rewrite !bind_lift, H1].
  destruct (Metadata.np_zeros_shape allocates (snd found) (fst found))
    as [shape|e] eqn:H2;
    [|left; exists e; intros fs; now rewrite !bind_lift, H1, bind_lift, H2].
  destruct (load ASCtoDfParam PathList 0 (fst shape) (snd shape))
    as [S|e] eqn:L0;
    [|left; exists e; intros fs;
      now rewrite !bind_lift, H1, bind_lift, H2, bind_lift, L0].
  destruct (load ASCtoDfParam PathList 1 (fst shape) (snd shape))
    as [R|e] eqn:L1;
    [|left; exists e; intros fs;
      now rewrite !bind_lift, H1, bind_lift, H2, bind_lift, L0, bind_lift, L1].
  destruct (load ASCtoDfParam PathList 2 (fst shape) (snd shape))
    as [K|e] eqn:L2;
    [|left; exists e; intros fs;
      now rewrite !bind_lift, H1, bind_lift, H2, bind_lift, L0, bind_lift, L1,
        bind_lift, L2].
  destruct (load ASCtoDfParam PathList 3 (fst shape) (snd shape))
    as [A|e] eqn:L3;
    [|left; exists e; intros fs;
      now rewrite !bind_lift, H1, bind_lift, H2, bind_lift, L0, bind_lift, L1,
        bind_lift, L2, bind_lift, L3].
  destruct (load ASCtoDfParam PathList 4 (fst shape) (snd shape))
    as [N|e] eqn:L4;
    [|left; exists e; intros fs;
      now rewrite !bind_lift, H1, bind_lift, H2, bind_lift, L0, bind_lift, L1,
        bind_lift, L2, bind_lift, L3, bind_lift, L4].
  right. exists (fst shape), (snd shape), S, R, K, A, N. intros fs.
  now rewrite !bind_lift, H1, bind_lift, H2, bind_lift, L0, bind_lift, L1,
    bind_lift, L2, bind_lift, L3, bind_lift, L4.
Qed.

(** X5: running the script a second time on the same input files, in the
    directory the first run left, ends the same way and leaves the
    directory as the first run did. *)
Theorem run_twice (PathList : list string) (fs : filesystem) :
  run readlines ASCtoDfParam allocates writes PathList
    (fst (run readlines ASCtoDfParam allocates writes PathList fs)) =
  run readlines ASCtoDfParam allocates writes PathList fs.
Proof.
  destruct (run_factor PathList)
    as [[e He]|(Nrows & Ncols & S & R & K & A & N & He)].
  - now rewrite !He.
  - rewrite !He. apply emit_again.
Qed.

(** X6: whatever the input files and however the run ends, no path of
    the directory other than the three output paths is created, changed
    or removed. *)
Theorem run_touches_only_outputs (PathList : list string) (fs : filesystem)
    (path : string) :
  path <> SuperCatsPath -> path <> SoilPropertiesPath ->
  path <> SoilDetailsPath ->
  fst (run readlines ASCtoDfParam allocates writes PathList fs) !! path = fs !! path.
Proof.
  intros H1 H2 H3.
  destruct (run_factor PathList)
    as [[e He]|(Nrows & Ncols & S & R & K & A & N & He)]; rewrite He.
  - reflexivity.
  - destruct (emit_state writes Nrows Ncols S R K A N fs)
      as [->|[(m & ->)|[(m & p & ->)|(m & p & d & ->)]]];
      now rewrite ?lookup_insert_ne by auto.
Qed.

End RunDirectory.

Lemma run_touches_only_outputs_witness :
  fst (run header_1x2 load_row any_shape every_path five_files ∅) !! "C:/Users/DH/Downloads/notes.txt"
  = None.
Proof.
  rewrite (run_touches_only_outputs header_1x2 load_row any_shape every_path
             five_files ∅
             "C:/Users/DH/Downloads/notes.txt");
    [apply lookup_empty | discriminate | discriminate | discriminate].
Defined.

(** ** The files found by [glob] (lines 65-113) *)

Lemma getitem_app_l {A} (l extra : list A) i :
  (i < length l)%nat -> getitem (l ++ extra) i = getitem l i.
Proof.
  intros H. unfold getitem. now rewrite nth_error_app1.
Qed.

Lemma load_app_l ASCtoDfParam PathList extra i Nrows Ncols :
  (i < length PathList)%nat ->
  load ASCtoDfParam (PathList ++ extra) i Nrows Ncols =
  load ASCtoDfParam PathList i Nrows Ncols.
Proof.
  intros H. unfold load. now rewrite getitem_app_l.
Qed.

(** X7: only the first five paths found are read: with five files in
    place, further matching files change nothing in the run. *)
Theorem run_ignores_further_files
    (readlines : string -> list string)
    (ASCtoDfParam : string -> Z -> Z -> result (list (list float)))
    (allocates : nat -> nat -> bool) (writes : string -> write_end)
    (PathList extra : list string) (fs : filesystem) :
  length PathList = 5%nat ->
  run readlines ASCtoDfParam allocates writes (PathList ++ extra) fs =
  run readlines ASCtoDfParam allocates writes PathList fs.
Proof.
  intros Hlen. unfold run.
  rewrite getitem_app_l by lia. rewrite !bind_lift.
  destruct (getitem PathList 0) as [path|e]; [|reflexivity].
  rewrite !bind_lift.
  destruct (Metadata.scan_lines (readlines path) None None)
    as [found|e]; [|reflexivity].
  rewrite !bind_lift.
  destruct (Metadata.np_zeros_shape allocates (snd found) (fst found))
    as [shape|e]; [|reflexivity].
  cbv zeta. rewrite !bind_lift, load_app_l by lia.
  destruct (load ASCtoDfParam PathList 0 (fst shape) (snd shape));
    [|reflexivity].
  rewrite !bind_lift, load_app_l by lia.
  destruct (load ASCtoDfParam PathList 1 (fst shape) (snd shape));
    [|reflexivity].
  rewrite !bind_lift, load_app_l by lia.
  destruct (load ASCtoDfParam PathList 2 (fst shape) (snd shape));
    [|reflexivity].
  rewrite !bind_lift, load_app_l by lia.
  destruct (load ASCtoDfParam PathList 3 (fst shape) (snd shape));
    [|reflexivity].
  rewrite !bind_lift, load_app_l by lia.
  destruct (load ASCtoDfParam PathList 4 (fst shape) (snd shape));
    reflexivity.
Qed.

Lemma run_ignores_further_files_witness :
  run header_1x2 load_row any_shape every_path (five_files ++ ["5km_6_Porosity.asc"]) ∅ =
  run header_1x2 load_row any_shape every_path five_files ∅.
Proof.
  apply run_ignores_further_files. reflexivity.
Defined.

(** ** The header of the first file (lines 67-94) *)

Section HeaderFacts.
Import Metadata.

Lemma scan_lines_plain Lines Ncols Nrows :
  (forall line, In line Lines -> plain_line line) ->
  scan_lines Lines Ncols Nrows = Ok (Ncols, Nrows).
Proof.
  revert Ncols Nrows. induction Lines as [|line Lines IH];
    intros Ncols Nrows H; [reflexivity|].
  simpl. destruct (H line (or_introl eq_refl)) as [-> ->].
  apply IH. intros l Hl. apply H. now right.
Qed.

(** X8: when no line of the first file holds the word ncols or the word
    nrows, the run raises NameError at [np.zeros] and writes nothing. *)
Theorem header_without_sizes
    (readlines : string -> list string)
    (ASCtoDfParam : string -> Z -> Z -> result (list (list float)))
    (allocates : nat -> nat -> bool) (writes : string -> write_end)
    (PathList : list string) (path : string) (fs : filesystem) :
  nth_error PathList 0 = Some path ->
  (forall line, In line (readlines path) -> plain_line line) ->
  run readlines ASCtoDfParam allocates writes PathList fs = (fs, Raise NameError).
Proof.
  intros Hpath Hplain. unfold run, getitem. rewrite Hpath.
  rewrite bind_lift, bind_lift, scan_lines_plain by assumption.
  now rewrite bind_lift.
Qed.

End HeaderFacts.

Lemma header_without_sizes_witness :
  run (fun _ => ["0.4 0.4"; "0.5 0.4"]) load_row any_shape every_path five_files ∅
  = (∅, Raise NameError).
Proof.
  apply (header_without_sizes _ _ _ _ _ "5km_1_ThetaS.asc"); [reflexivity|].
  intros line H. simpl in H.
  repeat (destruct H as [<-|H]; [split; reflexivity|]). destruct H.
Defined.

Section HeaderParse.
Import Metadata.

Lemma list_ascii_of_string_app a b :
  list_ascii_of_string (a +:+ b) =
  list_ascii_of_string a ++ list_ascii_of_string b.
Proof. induction a as [|c a IH]; simpl; [reflexivity|now rewrite IH]. Qed.

Lemma header_line_chars word blanks text ending :
  list_ascii_of_string (header_line word blanks text ending) =
  list_ascii_of_string word ++ repeat " "%char blanks ++ text ++ ending.
Proof.
  unfold header_line.
  now rewrite list_ascii_of_string_app, list_ascii_of_string_of_list_ascii.
Qed.

Lemma findall_from_inert pre s :
  forallb inert pre = true ->
  findall_from Idle (pre ++ s) = findall_from Idle s.
Proof.
  induction pre as [|c pre IH]; simpl; intros H; [reflexivity|].
  apply andb_true_iff in H. destruct H as [Hc H].
  unfold inert in Hc. apply andb_true_iff in Hc. destruct Hc as [Hd Hm].
  apply negb_true_iff in Hd, Hm. unfold restart. rewrite Hd, Hm. auto.
Qed.

Lemma forallb_repeat {A} (f : A -> bool) a n :
  f a = true -> forallb f (repeat a n) = true.
Proof. intros H. induction n; simpl; [reflexivity|now rewrite H]. Qed.

Lemma is_space_cases c :
  is_space c = true ->
  is_digit c = false /\ Ascii.eqb c dot = false /\
  Ascii.eqb c minus_sign = false /\ Ascii.eqb "n" c = false.
Proof.
  unfold is_space. rewrite !orb_true_iff, !Ascii.eqb_eq.
  intros [[[-> | ->] | ->] | ->]; repeat split.
Qed.

Lemma is_space_inert e : forallb is_space e = true -> forallb inert e = true.
Proof.
  rewrite !forallb_forall. intros H c Hc.
  destruct (is_space_cases c (H c Hc)) as (Hd & _ & Hm & _).
  unfold inert. now rewrite Hd, Hm.
Qed.

(** White space ends the match and starts no other. *)
Lemma findall_from_IntPart_end buf e :
  forallb is_space e = true -> findall_from (IntPart buf) e = [rev buf].
Proof.
  intros H. destruct e as [|c e]; [reflexivity|].
  simpl in H. apply andb_true_iff in H. destruct H as [Hc He].
  destruct (is_space_cases c Hc) as (Hd & Hdot & Hm & _).
  simpl. rewrite Hd, Hdot. unfold restart. rewrite Hd, Hm. f_equal.
  rewrite <- (app_nil_r e).
  now rewrite findall_from_inert by now apply is_space_inert.
Qed.

Lemma findall_from_IntPart_line buf ds e :
  forallb is_digit ds = true -> forallb is_space e = true ->
  findall_from (IntPart buf) (ds ++ e) = [rev buf ++ ds].
Proof.
  revert buf. induction ds as [|c ds IH]; intros buf H He; simpl.
  - rewrite app_nil_r. now apply findall_from_IntPart_end.
  - simpl in H. apply andb_true_iff in H. destruct H as [-> H].
    rewrite IH by assumption. simpl. now rewrite <- app_assoc.
Qed.

Lemma findall_from_digits ds e :
  digits ds -> line_end e -> findall_from Idle (ds ++ e) = [ds].
Proof.
  intros [Hne H] He. destruct ds as [|c ds]; [congruence|].
  simpl in *. apply andb_true_iff in H. destruct H as [Hc H].
  unfold restart. rewrite Hc. now rewrite findall_from_IntPart_line.
Qed.

Lemma is_digit_neq c0 c :
  is_digit c = true -> is_digit c0 = false -> Ascii.eqb c0 c = false.
Proof.
  intros Hc H0. destruct (Ascii.eqb c0 c) eqn:E; [|reflexivity].
  apply Ascii.eqb_eq in E. congruence.
Qed.

Lemma py_int_digits ds :
  digits ds -> py_int (string_of_list_ascii ds) = Ok (digits_value ds).
Proof.
  intros [Hne H]. unfold py_int.
  rewrite list_ascii_of_string_of_list_ascii.
  destruct ds as [|c ds]; [congruence|].
  assert (Ascii.eqb c minus_sign = false) as ->.
  { rewrite Ascii.eqb_sym. apply is_digit_neq; [|reflexivity].
    simpl in H. now apply andb_true_iff in H. }
  now rewrite H.
Qed.

(** The number on a header line: the word and the blanks start no match,
    the digits are the one match. *)
Lemma first_int_header_line word blanks ds e :
  forallb inert (list_ascii_of_string word) = true ->
  digits ds -> line_end e ->
  first_int (header_line word blanks ds e) = Ok (digits_value ds).
Proof.
  intros Hw Hd He. unfold first_int, findall.
  rewrite header_line_chars, app_assoc, findall_from_inert.
  - rewrite findall_from_digits by assumption. simpl.
    now rewrite py_int_digits.
  - rewrite forallb_app, Hw. simpl. now apply forallb_repeat.
Qed.

Lemma is_prefix_app p s : is_prefix p (p ++ s) = true.
Proof.
  induction p as [|c p IH]; simpl; [reflexivity|].
  now rewrite Ascii.eqb_refl.
Qed.

Lemma contains_app p s : contains p (p ++ s) = true.
Proof.
  destruct p as [|c p]; [now destruct s|].
  simpl. now rewrite Ascii.eqb_refl, is_prefix_app.
Qed.

(** A text without the first character of the needle does not hold it. *)
Lemma contains_without_first c p s :
  forallb (fun x => negb (Ascii.eqb c x)) s = true ->
  contains (c :: p) s = false.
Proof.
  induction s as [|x s IH]; simpl; intros H; [reflexivity|].
  apply andb_true_iff in H. destruct H as [Hx H].
  apply negb_true_iff in Hx. rewrite Hx. simpl. auto.
Qed.

Lemma line_without_n blanks ds e :
  forallb is_digit ds = true -> forallb is_space e = true ->
  forallb (fun x => negb (Ascii.eqb "n" x)) (repeat " "%char blanks ++ ds ++ e)
  = true.
Proof.
  intros Hd He. rewrite !forallb_app. repeat (apply andb_true_iff; split).
  - now apply forallb_repeat.
  - apply forallb_forall. intros x Hx.
    rewrite forallb_forall in Hd. rewrite is_digit_neq; auto.
  - apply forallb_forall. intros x Hx.
    rewrite forallb_forall in He.
    destruct (is_space_cases x (He x Hx)) as (_ & _ & _ & ->). reflexivity.
Qed.

Lemma ncols_line_contains blanks ds e :
  line_contains NColsString (header_line "ncols" blanks ds e) = true.
Proof.
  unfold line_contains. rewrite header_line_chars. apply contains_app.
Qed.

Lemma nrows_line_contains blanks ds e :
  forallb is_digit ds = true -> forallb is_space e = true ->
  line_contains NColsString (header_line "nrows" blanks ds e) = false /\
  line_contains NRowsString (header_line "nrows" blanks ds e) = true.
Proof.
  intros Hd He. unfold line_contains. rewrite header_line_chars. split.
  - simpl. apply contains_without_first.
    now apply line_without_n.
  - apply contains_app.
Qed.

Lemma digits_value_from_nonneg ds acc :
  0 <= acc -> forallb is_digit ds = true ->
  0 <= fold_left (fun acc c => 10 * acc + digit_value c) ds acc.
Proof.
  revert acc. induction ds as [|c ds IH]; intros acc Hacc H; [assumption|].
  simpl in *. apply andb_true_iff in H. destruct H as [Hc H].
  apply IH; [|assumption].
  unfold is_digit in Hc. apply andb_true_iff in Hc. destruct Hc as [Hlo _].
  apply Nat.leb_le in Hlo. unfold digit_value. lia.
Qed.

Lemma digits_value_nonneg ds : digits ds -> 0 <= digits_value ds.
Proof. intros [_ H]. now apply digits_value_from_nonneg. Qed.

Lemma scan_lines_cons line Lines Ncols Nrows :
  scan_lines (line :: Lines) Ncols Nrows =
  if line_contains NColsString line then
    match first_int line with
    | Raise e => Raise e
    | Ok n => scan_lines Lines (Some n) Nrows
    end
  else if line_contains NRowsString line then
    match first_int line with
    | Raise e => Raise e
    | Ok n => scan_lines Lines Ncols (Some n)
    end
  else scan_lines Lines Ncols Nrows.
Proof. reflexivity. Qed.

Lemma nbytes_bounds r c :
  0 <= r -> 0 <= c -> r <= nbytes r c /\ c <= nbytes r c.
Proof.
  intros Hr Hc. unfold nbytes.
  destruct (Z.eqb_spec r 0), (Z.eqb_spec c 0); nia.
Qed.

(** X9: a header that starts with an ncols line and an nrows line, each
    the word, blanks, a run of decimal digits and the end of the line,
    and whose other lines hold neither word, is read as these two
    numbers; [np.zeros] takes them as the shape (rows, columns) when the
    array has at most 2^63 - 1 bytes and the machine holds it, and raises
    ValueError when it has more bytes. *)
Theorem esri_header_read (allocates : nat -> nat -> bool)
    (blanks_c blanks_r : nat) (cols rows_ end_c end_r : list ascii)
    (rest : list string) :
  digits cols -> digits rows_ ->
  convertible cols -> convertible rows_ ->
  line_end end_c -> line_end end_r ->
  (forall line, In line rest -> plain_line line) ->
  let Ncols := digits_value cols in
  let Nrows := digits_value rows_ in
  scan_lines
    (header_line "ncols" blanks_c cols end_c
       :: header_line "nrows" blanks_r rows_ end_r :: rest) None None
  = Ok (Some Ncols, Some Nrows) /\
  (nbytes Nrows Ncols <= npy_max_intp ->
   allocates (Z.to_nat Nrows) (Z.to_nat Ncols) = true ->
   np_zeros_shape allocates (Some Nrows) (Some Ncols)
   = Ok (Z.to_nat Nrows, Z.to_nat Ncols)) /\
  (npy_max_intp < nbytes Nrows Ncols ->
   np_zeros_shape allocates (Some Nrows) (Some Ncols) = Raise ValueError).
Proof.
  intros Hc Hr _ _ Hec Her Hrest Ncols Nrows.
  pose proof (digits_value_nonneg _ Hc) as H0c.
  pose proof (digits_value_nonneg _ Hr) as H0r.
  fold Ncols in H0c. fold Nrows in H0r.
  destruct (nbytes_bounds Nrows Ncols H0r H0c) as [Hbr Hbc].
  split; [|split].
  - rewrite scan_lines_cons, ncols_line_contains.
    rewrite first_int_header_line by (reflexivity || assumption).
    rewrite scan_lines_cons.
    destruct (nrows_line_contains blanks_r rows_ end_r (proj2 Hr) Her)
      as [-> ->].
    rewrite first_int_header_line by (reflexivity || assumption).
    now apply scan_lines_plain.
  - intros Hb Ha. unfold np_zeros_shape.
    destruct (Z.ltb_spec Nrows 0); [lia|].
    destruct (Z.ltb_spec Ncols 0); [lia|].
    destruct (Z.ltb_spec npy_max_intp Nrows); [lia|].
    destruct (Z.ltb_spec npy_max_intp Ncols); [lia|].
    destruct (Z.ltb_spec npy_max_intp (nbytes Nrows Ncols)); [lia|].
    simpl. now rewrite Ha.
  - intros Hb. unfold np_zeros_shape.
    apply Z.ltb_lt in Hb. rewrite Hb. now rewrite !orb_true_r.
Qed.

End HeaderParse.

Lemma esri_header_read_witness :
  Metadata.scan_lines
    [header_line "ncols" 9 (list_ascii_of_string "120") [newline];
     header_line "nrows" 9 (list_ascii_of_string "85") [newline];
     header_line "xllcorner" 5 (list_ascii_of_string "-61.5") [newline];
     header_line "cellsize" 6 (list_ascii_of_string "5000") [newline];
     header_line "NODATA_value" 2 (list_ascii_of_string "-999") [newline]]
    None None
  = Ok (Some 120, Some 85) /\
  Metadata.np_zeros_shape any_shape (Some 85) (Some 120) = Ok (85%nat, 120%nat).
Proof.
  destruct (esri_header_read any_shape 9 9
              (list_ascii_of_string "120") (list_ascii_of_string "85")
              [newline] [newline]
              [header_line "xllcorner" 5 (list_ascii_of_string "-61.5") [newline];
               header_line "cellsize" 6 (list_ascii_of_string "5000") [newline];
               header_line "NODATA_value" 2 (list_ascii_of_string "-999")
                 [newline]]) as (Hscan & Hshape & _).
  - split; [discriminate|reflexivity].
  - split; [discriminate|reflexivity].
  - unfold convertible. simpl. lia.
  - unfold convertible. simpl. lia.
  - reflexivity.
  - reflexivity.
  - intros line H. simpl in H.
    repeat (destruct H as [<-|H]; [split; reflexivity|]). destruct H.
  - split; [exact Hscan|].
    apply Hshape; [vm_compute; discriminate|reflexivity].
Defined.

Section HeaderErrors.
Import Metadata.

Lemma forallb_false_In {A} (f : A -> bool) x l :
  In x l -> f x = false -> forallb f l = false.
Proof.
  intros Hin Hx. destruct (forallb f l) eqn:E; [|reflexivity].
  rewrite forallb_forall in E. rewrite (E x Hin) in Hx. discriminate.
Qed.

(** [int] refuses a match with a decimal point. *)
Lemma py_int_dot m :
  In dot (list_ascii_of_string m) -> py_int m = Raise ValueError.
Proof.
  intros H. unfold py_int.
  destruct (list_ascii_of_string m) as [|c ds]; [reflexivity|].
  destruct (Ascii.eqb c minus_sign) eqn:E.
  - apply Ascii.eqb_eq in E. subst c.
    destruct H as [H|H]; [discriminate|].
    now rewrite (forallb_false_In is_digit dot ds H eq_refl), andb_false_r.
  - now rewrite (forallb_false_In is_digit dot (c :: ds) H eq_refl).
Qed.

Lemma py_int_raises m e : py_int m = Raise e -> e = ValueError.
Proof.
  unfold py_int. destruct (list_ascii_of_string m) as [|c ds];
    [congruence|].
  destruct (Ascii.eqb c minus_sign).
  - destruct (_ && _)%bool; congruence.
  - destruct (forallb is_digit (c :: ds)); congruence.
Qed.

Lemma map_result_py_int_raises ms m :
  In m ms -> py_int m = Raise ValueError ->
  map_result py_int ms = Raise ValueError.
Proof.
  induction ms as [|a ms IH]; intros Hin Hm; [destruct Hin|].
  simpl. destruct (py_int a) as [n|e] eqn:Ea.
  - destruct Hin as [->|Hin]; [congruence|]. now rewrite IH.
  - apply py_int_raises in Ea. now subst e.
Qed.

(** X10: every number on an ncols or nrows line is converted with [int]
    before the first one is taken, so a number with a decimal point
    anywhere on such a line makes the reader raise ValueError. *)
Theorem decimal_on_size_line (line : string) (rest : list string)
    (Ncols Nrows : option Z) (m : string) :
  line_contains NColsString line = true \/
  line_contains NRowsString line = true ->
  In m (findall line) -> In dot (list_ascii_of_string m) ->
  scan_lines (line :: rest) Ncols Nrows = Raise ValueError.
Proof.
  intros Hword Hm Hdot.
  assert (first_int line = Raise ValueError) as Hfirst.
  { unfold first_int.
    now rewrite (map_result_py_int_raises _ m Hm (py_int_dot m Hdot)). }
  rewrite scan_lines_cons, Hfirst.
  destruct (line_contains NColsString line); [reflexivity|].
  destruct Hword as [Hword|Hword]; [discriminate|]. now rewrite Hword.
Qed.

End HeaderErrors.

Lemma decimal_on_size_line_witness :
  Metadata.scan_lines ["ncols 120 cellsize 0.5"; "nrows 85"] None None
  = Raise ValueError.
Proof.
  apply (decimal_on_size_line _ _ _ _ "0.5").
  - left. reflexivity.
  - vm_compute. auto.
  - vm_compute. auto.
Defined.

(** ** The lookup of line 137 *)

Lemma py_eq_trans x y z :
  py_eq x y = true -> py_eq y z = true -> py_eq x z = true.
Proof.
  rewrite !py_eq_key. intros (k & Hx & Hy) (k' & Hy' & Hz).
  exists k. split; congruence.
Qed.

Lemma py_eq_not_nan x y : py_eq x y = true -> is_nan x = false.
Proof.
  intros H. apply py_eq_key in H. destruct H as (k & Hx & _).
  destruct (is_nan x) eqn:E; [|reflexivity].
  apply is_nan_key in E. congruence.
Qed.

(** X11: [VG_ThetaS_unique_dict.get(x)] is [None] exactly when no cell of
    the grid compares equal to [x]; in particular a NaN is never found. *)
Theorem dict_get_missing (VG_ThetaS : list float) (x : float) :
  dict_get py_eq (VG_ThetaS_unique_dict VG_ThetaS) x = None <->
  (forall y, In y VG_ThetaS -> py_eq y x = false).
Proof.
  rewrite VG_ThetaS_unique_dict_items. unfold VG_ThetaS_unique.
  rewrite dict_get_enumerate.
  assert (option_map (fun i => Z.of_nat (0 + i))
            (index_of py_eq x (unique pd_eq VG_ThetaS)) = None <->
          index_of py_eq x (unique pd_eq VG_ThetaS) = None) as ->
    by (destruct (index_of py_eq x (unique pd_eq VG_ThetaS)); simpl;
        split; congruence).
  rewrite index_of_None, seen_false. split.
  - intros H y Hy. destruct (py_eq y x) eqn:E; [|reflexivity].
    assert (seen pd_eq y (unique pd_eq VG_ThetaS) = true) as Hs.
    { rewrite seen_unique by pd_equiv. apply existsb_exists.
      exists y. split; [assumption|apply pd_eq_refl]. }
    apply existsb_exists in Hs. destruct Hs as (y' & Hy' & Hyy).
    rewrite <- py_eq_pd_eq in Hyy by (eapply py_eq_not_nan; eauto).
    pose proof (py_eq_trans y' y x Hyy E) as Ht.
    rewrite (H y' Hy') in Ht. discriminate.
  - intros H y Hy. apply H. eapply unique_In; eauto.
Qed.

(** ** The arrays of unique values (lines 128, 158-162) *)

Lemma unique_from_distinct {A} (eqb : A -> A -> bool) t l :
  (forall x y, eqb x y = eqb y x) ->
  distinctb eqb (t ++ l) = true -> unique_from eqb t l = t ++ l.
Proof.
  intros Hsym. revert t. induction l as [|a l IH]; intros t H.
  - simpl. now rewrite app_nil_r.
  - rewrite unique_from_cons.
    rewrite (distinctb_app_seen eqb Hsym t a l H).
    rewrite IH; rewrite <- app_assoc; [reflexivity|exact H].
Qed.

(** X12: the unique values of a grid hold no value twice, hold only
    values of the grid, hold an equal of every value of the grid, and
    are their own unique values. *)
Theorem unique_values_of_grid (Df : list (list float)) :
  let values := unique pd_eq (flatten Df) in
  distinctb pd_eq values = true /\
  (forall y, In y values -> In y (flatten Df)) /\
  (forall x, In x (flatten Df) ->
     exists y, In y values /\ pd_eq y x = true) /\
  unique pd_eq values = values.
Proof.
  intros values.
  assert (distinctb pd_eq values = true) as Hd
    by (apply distinctb_unique; pd_equiv).
  split; [exact Hd|]. split; [intros y; apply unique_In|]. split.
  - intros x Hx. apply existsb_exists.
    change (seen pd_eq x values = true). subst values.
    rewrite seen_unique by pd_equiv.
    apply existsb_exists. exists x. split; [assumption|apply pd_eq_refl].
  - apply (unique_from_distinct pd_eq [] values pd_eq_sym Hd).
Qed.

(** ** The series of subcategory numbers (lines 94-103, 116) *)

Lemma map_shift_seq b s n :
  map (fun c => Z.of_nat b + Z.of_nat c) (seq s n) =
  map Z.of_nat (seq (b + s) n).
Proof.
  revert s. induction n as [|n IH]; intros s; simpl; [reflexivity|].
  f_equal; [lia|]. rewrite IH. do 2 f_equal. lia.
Qed.

Lemma concat_rows_sequential Ncols a n :
  concat (map (fun Row => map (fun Col => SubCats Ncols Row Col) (seq 0 Ncols))
              (seq a n)) =
  map Z.of_nat (seq (1 + Ncols * a) (n * Ncols)).
Proof.
  revert a. induction n as [|n IH]; intros a; [reflexivity|].
  cbn [seq map concat]. rewrite IH.
  replace (S n * Ncols)%nat with (Ncols + n * Ncols)%nat by lia.
  rewrite seq_app, map_app. f_equal.
  - transitivity
      (map (fun c => Z.of_nat (1 + Ncols * a) + Z.of_nat c) (seq 0 Ncols)).
    + apply map_ext. intros c. unfold SubCats. lia.
    + rewrite map_shift_seq. do 2 f_equal. lia.
  - do 2 f_equal. lia.
Qed.

(** X13: for a grid of fewer than 2^53 cells, the flattened subcategory
    frame is the sequence 1, 2, ..., Nrows*Ncols. *)
Theorem subcategories_sequential (Nrows Ncols : nat) :
  Z.of_nat Nrows * Z.of_nat Ncols < 2 ^ 53 ->
  flatten (DfSubCats Nrows Ncols) = map Z.of_nat (seq 1 (Nrows * Ncols)).
Proof.
  intros Hfit. unfold flatten.
  pose proof (concat_rows_sequential Ncols 0 Nrows) as Hseq.
  rewrite Nat.mul_0_r, Nat.add_0_r in Hseq. rewrite <- Hseq.
  unfold DfSubCats. f_equal.
  apply map_ext_in. intros r Hr. apply in_seq in Hr.
  apply map_ext_in. intros c Hc. apply in_seq in Hc.
  pose proof (SubCats_bounds Nrows Ncols r c ltac:(lia) ltac:(lia)).
  rewrite float64_of_int_small, astype_int_small by lia. reflexivity.
Qed.

Lemma subcategories_sequential_witness :
  flatten (DfSubCats 2 3) = [1; 2; 3; 4; 5; 6].
Proof.
  assert (Z.of_nat 2 * Z.of_nat 3 < 2 ^ 53) as H by reflexivity.
  exact (subcategories_sequential 2 3 H).
Defined.

(** ** The IDs in use (lines 128-139) *)

(** X14: on a grid of numbers the IDs given to the cells are exactly
    0, 1, ..., k-1, where k is the number of IDs: none is skipped and no
    cell is left without one. *)
Theorem supercats_contiguous (VG_ThetaS : list float) (id : option Z) :
  no_nan VG_ThetaS ->
  In id (SuperCats VG_ThetaS) <->
  exists j, (j < length (SuperCats_unique VG_ThetaS))%nat /\
            id = Some (Z.of_nat j).
Proof.
  intros Hn.
  assert (In id (SuperCats VG_ThetaS) <-> In id (SuperCats_unique VG_ThetaS))
    as ->.
  { split; [apply SuperCats_in_column|apply unique_In]. }
  rewrite length_SuperCats_unique_any.
  rewrite SuperCats_unique_enumerate by assumption.
  rewrite in_map_iff. split.
  - intros (j & <- & Hj). apply in_seq in Hj. exists j. split; [lia|reflexivity].
  - intros (j & Hj & ->). exists j. split; [reflexivity|].
    apply in_seq. lia.
Qed.

Lemma supercats_contiguous_witness :
  In (Some 1) (SuperCats (flatten grid_22)).
Proof.
  apply (supercats_contiguous (flatten grid_22) (Some 1) no_nan_grid_22).
  exists 1%nat. split; [|reflexivity].
  vm_compute. lia.
Defined.
